(** * CPU distribution kernels of ATen (aten/src/ATen/native/cpu/DistributionTemplates.h)

    A shallow embedding of the random filling kernels: every kernel is a
    computation over the generator, the output buffer and a log of what was
    done, and may throw.  What the header takes from other headers (the
    generator, the distribution templates, floating-point arithmetic, the
    vector unit) is an interface here, so every theorem holds for every
    implementation of it.  The mutex of the generator is not modelled: a
    kernel is the sequential computation of its critical section. *)

From Stdlib Require Import ZArith QArith Qabs Qround Lia.
From stdpp Require Import base list strings.

Local Open Scope Z_scope.

(** ** Element types

    Modelled from the spec: [c10::ScalarType] and the helpers over it are
    declared in other headers; the header names the types it dispatches on. *)

Inductive ScalarType :=
| kByte | kChar | kShort | kInt | kLong
| kHalf | kFloat | kDouble
| kComplexHalf | kComplexFloat | kComplexDouble
| kBool | kQInt8 | kQUInt8 | kQInt32 | kBFloat16.

#[global] Instance ScalarType_eq_dec : EqDecision ScalarType.
Proof. solve_decision. Defined.

(** Modelled from the spec: [isFloatingType] (c10/core/ScalarType.h), the
    floating-point precisions: double, float and the two reduced ones. *)
Definition isFloatingType (t : ScalarType) : bool :=
  match t with
  | kDouble | kFloat | kHalf | kBFloat16 => true
  | _ => false
  end.

(** Modelled from the spec: the type lists of the AT_DISPATCH_* macros
    (ATen/Dispatch.h), "a closed, explicit enumeration of supported element
    types".  ALL_TYPES is the standard integer types with float and double
    ([random_full_64_bits_range_kernel] below tests [scalar_t] against
    [int64_t], [double] and [float] under it); FLOATING_TYPES is double and
    float.  The macros' AND variants add the types they are given. *)
Definition ALL_TYPES : list ScalarType :=
  [kByte; kChar; kDouble; kFloat; kInt; kLong; kShort].

Definition FLOATING_TYPES : list ScalarType := [kDouble; kFloat].

(** ** Values, tensors, events *)

(** An element of a buffer: an integer (integral types and bool) or a
    floating-point number, over the carrier [F] of floating-point values. *)
Inductive Scalar (F : Type) :=
| SInt (z : Z)
| SReal (x : F).
Arguments SInt {F} z.
Arguments SReal {F} x.

#[global] Instance Scalar_inhabited F : Inhabited (Scalar F) := populate (SInt 0).

Record Tensor (F : Type) := mkTensor {
  scalar_type : ScalarType;
  sizes : list Z;
  is_contiguous : bool;
  storage : list (Scalar F)
}.
Arguments mkTensor {F}.
Arguments scalar_type {F}.
Arguments sizes {F}.
Arguments is_contiguous {F}.
Arguments storage {F}.

Definition numel {F} (t : Tensor F) : Z := Z.of_nat (length (storage t)).

(** [iter.dtype()] of the iterator built over an output. *)
Definition dtype {F} (iter : Tensor F) : ScalarType := scalar_type iter.

Inductive Distribution :=
| uniform_int_from_to | uniform_int_full_range | uniform_int
| uniform_real | normal | cauchy | lognormal | geometric | exponential
| bernoulli.

Inductive Routine :=
| r_cpu_serial_kernel
| r_normal_fill
| r_normal_fill_vectorize
| r_normal_fill_16 (off : Z)
| r_normal_fill_16_vectorize (off : Z).

(** What a kernel does, in order: the routines it enters, each call of a
    distribution object (with the type it is instantiated at) on the
    generator, each element of the output it assigns. *)
Inductive Event :=
| EvCall (r : Routine)
| EvSample (d : Distribution) (T : ScalarType)
| EvStore (i : Z).

Inductive Error :=
| NotImplemented (name : string) (t : ScalarType)
| CheckFailed (msg : string)
| OutOfBounds (i : Z)
| DivisionByZero
| OutOfFuel.

(** ** Interfaces of the collaborators *)

(** The generator ([template<typename RNG>]): its 32-bit and 64-bit draws. *)
Class RNG (G : Type) := {
  random : G → Z * G;
  random64 : G → Z * G
}.

(** Floating-point arithmetic, [static_cast] between the numeric types. *)
Class Arith (F : Type) := {
  fconst : Z → F;
  fpi : F;
  fadd : F → F → F;
  fsub : F → F → F;
  fmul : F → F → F;
  flog : F → F;
  fsqrt : F → F;
  fcos : F → F;
  fsin : F → F;
  fround : ScalarType → F → F;
  ftrunc : ScalarType → F → Z;
  of_int64 : ScalarType → Z → F
}.

(** [Vectorized<float>]: its width and its lane-wise functions. *)
Class VecUnit (F : Type) := {
  Vec_size : Z;
  vlog : F → F;
  vsqrt : F → F;
  vcos : F → F;
  vsin : F → F
}.

(** The distribution templates of ATen/core/DistributionsHelper.h that draw
    floating-point samples, and the two unbounded integer ones.  The first
    argument is the type the template is instantiated at. *)
Class Distributions (G F : Type) := {
  uniform_real_distribution : ScalarType → F → F → G → F * G;
  normal_distribution : ScalarType → F → F → G → F * G;
  cauchy_distribution : ScalarType → F → F → G → F * G;
  lognormal_distribution : ScalarType → F → F → G → F * G;
  geometric_distribution : ScalarType → F → G → F * G;
  exponential_distribution : ScalarType → F → G → F * G;
  bernoulli_distribution : ScalarType → F → G → F * G;
  uniform_int_full_range_distribution : ScalarType → G → Scalar F * G;
  uniform_int_distribution : ScalarType → G → Scalar F * G
}.

(** [expand_inplace(self, p)]: [p] broadcast to the sizes of [self]. *)
Class Broadcast (F : Type) := {
  expand_inplace : list Z → Tensor F → Tensor F
}.

(** ** The kernels *)

Section Kernels.
Context {G F : Type} `{!RNG G, !Arith F, !VecUnit F, !Distributions G F, !Broadcast F}.

(** The generator, the output buffer ([data_ptr], or the elements the
    iterator walks, in its order) and the log. *)
Record State := mkState {
  generator : G;
  data : list (Scalar F);
  trace : list Event
}.

Inductive Outcome (A : Type) :=
| Ok (a : A)
| Throw (e : Error).
#[global] Arguments Ok {A} a.
#[global] Arguments Throw {A} e.

(** A computation keeps the state it has reached when it throws: generator
    and buffer are objects of the caller. *)
Definition M (A : Type) : Type := State → State * Outcome A.

#[global] Instance M_ret : MRet M := λ A a st, (st, Ok a).

#[global] Instance M_bind : MBind M := λ A B k m st,
  match m st with
  | (st', Ok a) => k a st'
  | (st', Throw e) => (st', Throw e)
  end.

Definition throw {A} (e : Error) : M A := λ st, (st, Throw e).

Definition emit (ev : Event) : M unit := λ st,
  (mkState (generator st) (data st) (trace st ++ [ev]), Ok tt).

(** [dist(generator)] for a distribution object [dist] of kind [d]
    instantiated at [T]. *)
Definition sample {A} (d : Distribution) (T : ScalarType) (dist : G → A * G) : M A :=
  λ st, let '(x, g) := dist (generator st) in
        (mkState g (data st) (trace st ++ [EvSample d T]), Ok x).

(** The same for a distribution object whose call may be undefined. *)
Definition sample_partial {A} (d : Distribution) (T : ScalarType)
    (dist : G → option (A * G)) : M A :=
  λ st, match dist (generator st) with
        | Some (x, g) => (mkState g (data st) (trace st ++ [EvSample d T]), Ok x)
        | None => (st, Throw DivisionByZero)
        end.

(** [data[i]] *)
Definition load (i : Z) : M (Scalar F) := λ st,
  if bool_decide (0 ≤ i) then
    match data st !! Z.to_nat i with
    | Some v => (st, Ok v)
    | None => (st, Throw (OutOfBounds i))
    end
  else (st, Throw (OutOfBounds i)).

(** [data[i] = v] *)
Definition store (i : Z) (v : Scalar F) : M unit := λ st,
  if bool_decide (0 ≤ i < Z.of_nat (length (data st))) then
    (mkState (generator st) (<[Z.to_nat i := v]> (data st)) (trace st ++ [EvStore i]), Ok tt)
  else (st, Throw (OutOfBounds i)).

(** [for (const auto i : c10::irange(n))], and any loop over given indices *)
Fixpoint for_each {I : Type} (l : list I) (body : I → M unit) : M unit :=
  match l with
  | [] => mret tt
  | i :: l' => body i ;; for_each l' body
  end.

Definition irange (n : Z) : list Z := seqZ 0 n.

(** [for (int64_t i = start; i < bound; i += 16)] *)
Fixpoint for_step_16 (fuel : nat) (i bound : Z) (body : Z → M unit) : M unit :=
  match fuel with
  | O => throw OutOfFuel
  | S fuel' =>
      if bool_decide (i < bound) then body i ;; for_step_16 fuel' (i + 16) bound body
      else mret tt
  end.

(** The state a kernel starts from: the generator it is given, the output
    as the caller left it, nothing done yet. *)
Definition enter (self : Tensor F) (g : G) : State := mkState g (storage self) [].

(** *** Type dispatch (ATen/Dispatch.h) *)

(** Modelled from the spec: [AT_DISPATCH_*(..., t, name, body)] runs [body]
    once at [scalar_t := t] when [t] is in the list of the macro, and fails
    with the "not implemented" error otherwise. *)
Definition AT_DISPATCH {A} (types : list ScalarType) (t : ScalarType) (name : string)
    (body : ScalarType → M A) : M A :=
  if bool_decide (t ∈ types) then body t else throw (NotImplemented name t).

Definition AT_DISPATCH_ALL_TYPES_AND {A} (s1 : ScalarType) :=
  @AT_DISPATCH A (s1 :: ALL_TYPES).
Definition AT_DISPATCH_ALL_TYPES_AND2 {A} (s1 s2 : ScalarType) :=
  @AT_DISPATCH A (s1 :: s2 :: ALL_TYPES).
Definition AT_DISPATCH_ALL_TYPES_AND3 {A} (s1 s2 s3 : ScalarType) :=
  @AT_DISPATCH A (s1 :: s2 :: s3 :: ALL_TYPES).
Definition AT_DISPATCH_FLOATING_TYPES_AND2 {A} (s1 s2 : ScalarType) :=
  @AT_DISPATCH A (s1 :: s2 :: FLOATING_TYPES).

(** Modelled from the spec: [TORCH_CHECK(cond, msg)], "a fatal precondition
    failure" when [cond] is false. *)
Definition TORCH_CHECK (cond : bool) (msg : string) : M unit :=
  if cond then mret tt else throw (CheckFailed msg).

(** *** Conversions *)

(** [static_cast<T>(x)] of a floating-point [x]. *)
Definition static_cast (T : ScalarType) (x : F) : Scalar F :=
  if isFloatingType T then SReal (fround T x) else SInt (ftrunc T x).

Definition wrap_signed (w z : Z) : Z := (z + 2 ^ (w - 1)) mod 2 ^ w - 2 ^ (w - 1).

(** [static_cast<T>(z)] of an [int64_t] [z]. *)
Definition static_cast_int64 (T : ScalarType) (z : Z) : Scalar F :=
  match T with
  | kByte => SInt (z mod 2 ^ 8)
  | kChar => SInt (wrap_signed 8 z)
  | kShort => SInt (wrap_signed 16 z)
  | kInt => SInt (wrap_signed 32 z)
  | kLong => SInt (wrap_signed 64 z)
  | kBool => SInt (if bool_decide (z = 0) then 0 else 1)
  | _ => SReal (of_int64 T z)
  end.

(** An element read as a floating-point number. *)
Definition as_real (v : Scalar F) : F :=
  match v with
  | SReal x => x
  | SInt z => of_int64 kDouble z
  end.

(** *** The element-wise iteration engine (ATen/native/cpu/Loops.h) *)

(** Modelled from the spec: [cpu_serial_kernel(iter, op)] for a nullary
    [op] invokes [op] "once per output position": one call per element of
    the output, in order, its result assigned to the element. *)
Definition cpu_serial_kernel (iter : Tensor F) (op : M (Scalar F)) : M unit :=
  emit (EvCall r_cpu_serial_kernel) ;;
  for_each (irange (numel iter)) (λ i, v ← op; store i v).

(** Modelled from the spec: [cpu_serial_kernel(iter, op)] for a unary [op]
    over the input [p], "both arrays walked in lockstep": each element of
    the output is [op] of the element of [p] at the same position. *)
Definition cpu_serial_kernel_unary (iter p : Tensor F) (op : Scalar F → M (Scalar F)) : M unit :=
  emit (EvCall r_cpu_serial_kernel) ;;
  for_each (irange (numel iter)) (λ i,
    match storage p !! Z.to_nat i with
    | Some p_val => v ← op p_val; store i v
    | None => throw (OutOfBounds i)
    end).

(** *** Random *)

(** Modelled from the spec: the element types that take a full 64-bit draw,
    those the full-range kernel below accepts. *)
Definition wide_draw (T : ScalarType) : bool :=
  match T with
  | kLong | kDouble | kFloat | kBFloat16 => true
  | _ => false
  end.

(** Modelled from the spec: the integer draw behind
    [uniform_int_from_to_distribution] (ATen/core/DistributionsHelper.h, not
    part of this header), "the generator's integer primitive ... appropriate
    to the element's bit width": a 64-bit draw for a range of 2^32 or more
    into a type that can hold it, a 32-bit draw otherwise. *)
Definition integer_draw (T : ScalarType) (range : Z) (g : G) : Z * G :=
  if wide_draw T && bool_decide (2 ^ 32 ≤ range)
  then (let '(v, g') := random64 g in (v mod 2 ^ 64, g'))
  else (let '(v, g') := random g in (v mod 2 ^ 32, g')).

(** Modelled from the spec: the transformation of that draw, missing with
    the distribution: an unsigned offset in [[0, range)] by the modulus,
    the signed [base] added in unsigned 64-bit arithmetic, the sum read
    back as a signed 64-bit integer. *)
Definition offset_plus_base (val range base : Z) : Z :=
  wrap_signed 64 ((val mod range + base mod 2 ^ 64) mod 2 ^ 64).

(** Modelled from the spec: [uniform_int_from_to_distribution] of
    ATen/core/DistributionsHelper.h is not part of this header.  It draws
    an offset in [[0, range)], adds [base] and converts the result to the
    element type.  No offset exists for [range = 0] (a modulus by zero). *)
Definition uniform_int_from_to_distribution (T : ScalarType) (range base : Z) (g : G)
    : option (Scalar F * G) :=
  if bool_decide (range = 0) then None
  else
    let '(val, g') := integer_draw T range g in
    Some (static_cast_int64 T (offset_plus_base val range base), g').

Definition random_from_to_kernel (iter : Tensor F) (range base : Z) : M unit :=
  AT_DISPATCH_ALL_TYPES_AND3 kBool kHalf kBFloat16 (dtype iter) "random_from_to_kernel_cpu"
    (λ scalar_t,
      cpu_serial_kernel iter
        (sample_partial uniform_int_from_to scalar_t
           (uniform_int_from_to_distribution scalar_t range base))).

Definition random_full_64_bits_range_kernel (iter : Tensor F) : M unit :=
  AT_DISPATCH_ALL_TYPES_AND kBFloat16 (dtype iter) "random_full_64_bits_range_kernel_cpu"
    (λ scalar_t,
      if bool_decide (scalar_t = kLong) || bool_decide (scalar_t = kDouble)
         || bool_decide (scalar_t = kFloat) || bool_decide (scalar_t = kBFloat16)
      then
        cpu_serial_kernel iter
          (sample uniform_int_full_range scalar_t (uniform_int_full_range_distribution scalar_t))
      else
        TORCH_CHECK false
          "random_full_64_bits_range_kernel_cpu handles only int64, double, float and bfloat16").

Definition random_kernel (iter : Tensor F) : M unit :=
  AT_DISPATCH_ALL_TYPES_AND3 kHalf kBFloat16 kBool (dtype iter) "random_kernel_cpu"
    (λ scalar_t,
      cpu_serial_kernel iter
        (sample uniform_int scalar_t (uniform_int_distribution scalar_t))).

(** *** Normal *)

(** [data] points [off] elements into the buffer. *)
Definition normal_fill_16 (scalar_t : ScalarType) (off : Z) (mean std : F) : M unit :=
  emit (EvCall (r_normal_fill_16 off)) ;;
  for_each (irange 8) (λ j,
    d1 ← load (off + j);
    let u1 := fround scalar_t (fsub (fconst 1) (as_real d1)) in
    d2 ← load (off + (j + 8));
    let u2 := as_real d2 in
    let radius := fround scalar_t (fsqrt (fmul (fconst (-2)) (flog u1))) in
    let theta := fround scalar_t (fmul (fmul (fconst 2) fpi) u2) in
    store (off + j)
      (SReal (fround scalar_t (fadd (fmul (fmul radius (fcos theta)) std) mean))) ;;
    store (off + (j + 8))
      (SReal (fround scalar_t (fadd (fmul (fmul radius (fsin theta)) std) mean)))).

(** [Vectorized<float>]: a vector is the list of its lanes; arithmetic is
    lane-wise, in single precision. *)
Definition Vec : Type := list F.
Definition Vec_splat (x : F) : Vec := replicate (Z.to_nat Vec_size) (fround kFloat x).
Definition Vec_sub (a b : Vec) : Vec := zip_with (λ x y, fround kFloat (fsub x y)) a b.
Definition Vec_mul (a b : Vec) : Vec := zip_with (λ x y, fround kFloat (fmul x y)) a b.
Definition Vec_add (a b : Vec) : Vec := zip_with (λ x y, fround kFloat (fadd x y)) a b.

Fixpoint load_lanes (l : list Z) : M Vec :=
  match l with
  | [] => mret []
  | i :: l' => v ← load i; vs ← load_lanes l'; mret (as_real v :: vs)
  end.

(** [Vec::loadu(data + off)] *)
Definition Vec_loadu (off : Z) : M Vec := load_lanes (seqZ off Vec_size).

(** [v.store(data + off)] *)
Definition Vec_store (v : Vec) (off : Z) : M unit :=
  for_each (zip (seqZ off (Z.of_nat (length v))) v) (λ ix, store ix.1 (SReal ix.2)).

Definition normal_fill_16_vectorize (off : Z) (two_pi one minus_two mean std : Vec) : M unit :=
  emit (EvCall (r_normal_fill_16_vectorize off)) ;;
  d1 ← Vec_loadu off;
  let u1 := Vec_sub one d1 in
  u2 ← Vec_loadu (off + Vec_size);
  let radius := Vec_mul minus_two (vlog <$> u1) in
  let radius := vsqrt <$> radius in
  let theta := Vec_mul two_pi u2 in
  let output_vec := Vec_add (Vec_mul (Vec_mul radius (vcos <$> theta)) std) mean in
  let output_vec2 := Vec_add (Vec_mul (Vec_mul radius (vsin <$> theta)) std) mean in
  Vec_store output_vec off ;;
  Vec_store output_vec2 (off + Vec_size).

(** [data[off + i] = uniform(generator)] for [i] in [irange(n)], with
    [uniform] an [at::uniform_real_distribution<scalar_t>(0, 1)] and the
    buffer holding elements of type [elem_t]. *)
Definition fill_uniform (scalar_t elem_t : ScalarType) (off n : Z) : M unit :=
  for_each (irange n) (λ i,
    x ← sample uniform_real scalar_t (uniform_real_distribution scalar_t (fconst 0) (fconst 1));
    store (off + i) (SReal (fround elem_t x))).

Definition normal_fill_vectorize (scalar_t : ScalarType) (self : Tensor F) (mean std : F)
    : M unit :=
  emit (EvCall r_normal_fill_vectorize) ;;
  let size := numel self in
  fill_uniform scalar_t kFloat 0 size ;;
  let two_pi := Vec_splat (fmul (fconst 2) fpi) in
  let one := Vec_splat (fconst 1) in
  let minus_two := Vec_splat (fconst (-2)) in
  let var_vec := Vec_splat std in
  let mean_vec := Vec_splat mean in
  for_step_16 (S (Z.to_nat size)) 0 (size - 15) (λ i,
    if bool_decide (Vec_size = 8)
    then normal_fill_16_vectorize i two_pi one minus_two mean_vec var_vec
    else normal_fill_16 scalar_t i mean std) ;;
  if bool_decide (Z.rem size 16 ≠ 0) then
    (* Recompute the last 16 values. *)
    let off := size - 16 in
    fill_uniform scalar_t kFloat off 16 ;;
    if bool_decide (Vec_size = 8)
    then normal_fill_16_vectorize off two_pi one minus_two mean_vec var_vec
    else normal_fill_16 scalar_t off mean std
  else mret tt.

Definition normal_fill (scalar_t : ScalarType) (self : Tensor F) (mean std : F) : M unit :=
  emit (EvCall r_normal_fill) ;;
  let size := numel self in
  fill_uniform scalar_t scalar_t 0 size ;;
  for_step_16 (S (Z.to_nat size)) 0 (size - 15) (λ i, normal_fill_16 scalar_t i mean std) ;;
  if bool_decide (Z.rem size 16 ≠ 0) then
    (* Recompute the last 16 values. *)
    let off := size - 16 in
    fill_uniform scalar_t scalar_t off 16 ;;
    normal_fill_16 scalar_t off mean std
  else mret tt.

Definition normal_kernel (self : Tensor F) (mean std : F) : M unit :=
  let size := numel self in
  if bool_decide (scalar_type self = kFloat) && bool_decide (16 ≤ size) && is_contiguous self
  then
    normal_fill_vectorize kFloat self (fround kFloat mean) (fround kFloat std)
  else
    AT_DISPATCH_FLOATING_TYPES_AND2 kHalf kBFloat16 (scalar_type self) "normal_kernel_cpu"
      (λ scalar_t,
        if bool_decide (16 ≤ size) && is_contiguous self then
          normal_fill scalar_t self (fround scalar_t mean) (fround scalar_t std)
        else
          let iter := self in
          cpu_serial_kernel iter
            (x ← sample normal kDouble (normal_distribution kDouble mean std);
             mret (static_cast scalar_t x))).

(** *** Uniform *)

Definition uniform_kernel (iter : Tensor F) (from_ to_ : F) : M unit :=
  AT_DISPATCH_FLOATING_TYPES_AND2 kHalf kBFloat16 (dtype iter) "uniform_kernel_cpu"
    (λ scalar_t,
      let from := fround scalar_t from_ in
      let to := fround scalar_t to_ in
      let uniform := uniform_real_distribution scalar_t from to in
      cpu_serial_kernel iter
        (x ← sample uniform_real scalar_t uniform; mret (static_cast scalar_t x))).

(** *** Cauchy *)

Definition cauchy_kernel (iter : Tensor F) (median sigma : F) : M unit :=
  AT_DISPATCH_FLOATING_TYPES_AND2 kHalf kBFloat16 (dtype iter) "cauchy_cpu"
    (λ scalar_t,
      let cauchy_ := cauchy_distribution kDouble median sigma in
      cpu_serial_kernel iter
        (x ← sample cauchy kDouble cauchy_; mret (static_cast scalar_t x))).

(** *** LogNormal *)

Definition log_normal_kernel (iter : Tensor F) (mean std : F) : M unit :=
  AT_DISPATCH_FLOATING_TYPES_AND2 kHalf kBFloat16 (dtype iter) "log_normal_cpu"
    (λ scalar_t,
      let logNormal := lognormal_distribution kDouble mean std in
      cpu_serial_kernel iter
        (x ← sample lognormal kDouble logNormal; mret (static_cast scalar_t x))).

(** *** Geometric *)

Definition geometric_kernel (iter : Tensor F) (p : F) : M unit :=
  AT_DISPATCH_ALL_TYPES_AND2 kHalf kBFloat16 (dtype iter) "geometric_cpu"
    (λ scalar_t,
      let geometric_ := geometric_distribution kDouble p in
      cpu_serial_kernel iter
        (x ← sample geometric kDouble geometric_; mret (static_cast scalar_t x))).

(** *** Exponential *)

Definition exponential_kernel (iter : Tensor F) (lambda : F) : M unit :=
  TORCH_CHECK (isFloatingType (dtype iter))
    "Exponential distribution is a continuous probability distribution. dtype must be a floating point but you specified " ;;
  AT_DISPATCH_FLOATING_TYPES_AND2 kHalf kBFloat16 (dtype iter) "exponential_cpu"
    (λ scalar_t,
      let exponential_ := exponential_distribution kDouble lambda in
      cpu_serial_kernel iter
        (x ← sample exponential kDouble exponential_; mret (static_cast scalar_t x))).

(** *** Bernoulli *)

(** [bernoulli_kernel(self, p_, generator)] with a tensor of probabilities. *)
Definition bernoulli_kernel (self p_ : Tensor F) : M unit :=
  AT_DISPATCH_ALL_TYPES_AND3 kBool kBFloat16 kHalf (scalar_type self) "bernoulli_tensor_cpu_self_"
    (λ self_t,
      let p_cpu := p_ in
      let p := expand_inplace (sizes self) p_cpu in
      if bool_decide (scalar_type p = kDouble) then
        cpu_serial_kernel_unary self p (λ p_val,
          let bernoulli_ := bernoulli_distribution kDouble (as_real p_val) in
          x ← sample bernoulli kDouble bernoulli_; mret (static_cast self_t x))
      else
        AT_DISPATCH_FLOATING_TYPES_AND2 kBFloat16 kHalf (scalar_type p) "bernoulli_tensor_cpu_p_"
          (λ p_t,
            cpu_serial_kernel_unary self p (λ p_val,
              let bernoulli_ := bernoulli_distribution kFloat (fround kFloat (as_real p_val)) in
              x ← sample bernoulli kFloat bernoulli_; mret (static_cast self_t x)))).

(** [bernoulli_kernel(self, p, generator)] with one probability. *)
Definition bernoulli_kernel_scalar (self : Tensor F) (p : F) : M unit :=
  AT_DISPATCH_ALL_TYPES_AND3 kBool kBFloat16 kHalf (scalar_type self) "bernoulli_scalar_cpu_"
    (λ scalar_t,
      let iter := self in
      cpu_serial_kernel iter
        (let bernoulli_ := bernoulli_distribution kDouble p in
         x ← sample bernoulli kDouble bernoulli_; mret (static_cast scalar_t x))).

End Kernels.


(** ** Vocabulary of the statements *)

Section Vocabulary.
Context {G F : Type}.

(** The samples a distribution object yields when it is called once per
    element of [l], in order, and the generator it leaves. *)
Fixpoint draws {I A : Type} (dist : I → G → A * G) (l : list I) (g : G) : list A * G :=
  match l with
  | [] => ([], g)
  | i :: l' =>
      let '(x, g1) := dist i g in
      let '(xs, g2) := draws dist l' g1 in
      (x :: xs, g2)
  end.

(** One call of the distribution object, then the assignment of the element,
    for each index of [l]. *)
Definition sample_store (d : Distribution) (T : ScalarType) (l : list Z) : list Event :=
  l ≫= λ i, [EvSample d T; EvStore i].

(** The log of one Box-Muller block at [off]: the scalar routine assigns
    [off + j] and [off + j + 8] for [j = 0..7], the vector routine the
    lower eight lanes, then the upper eight. *)
Definition block_trace (vectorized : bool) (off : Z) : list Event :=
  if vectorized then
    EvCall (r_normal_fill_16_vectorize off)
      :: (EvStore <$> seqZ off 8) ++ (EvStore <$> seqZ (off + 8) 8)
  else
    EvCall (r_normal_fill_16 off)
      :: (seqZ 0 8 ≫= λ j, [EvStore (off + j); EvStore (off + (j + 8))]).

(** The offsets [0, 16, 32, ...] of the complete blocks of [size] elements. *)
Definition block_offsets (size : Z) : list Z := (λ k, 16 * k) <$> seqZ 0 (size / 16).

(** The log of a bulk normal fill of [size] elements entered through
    routine [r]: a first pass of [size] draws, the complete blocks, and for
    a size that is not a multiple of 16 a second pass of 16 draws into the
    last 16 elements followed by one more block there. *)
Definition first_pass (T : ScalarType) (size : Z) : list Event :=
  sample_store uniform_real T (seqZ 0 size).

Definition complete_blocks (vectorized : bool) (size : Z) : list Event :=
  block_offsets size ≫= block_trace vectorized.

Definition tail_block (vectorized : bool) (T : ScalarType) (size : Z) : list Event :=
  if bool_decide (size mod 16 = 0) then []
  else sample_store uniform_real T (seqZ (size - 16) 16) ++ block_trace vectorized (size - 16).

Definition bulk_trace (r : Routine) (vectorized : bool) (T : ScalarType) (size : Z)
    : list Event :=
  EvCall r :: first_pass T size ++ complete_blocks vectorized size
    ++ tail_block vectorized T size.

Definition stores_of (tr : list Event) : list Z :=
  omap (λ ev, match ev with EvStore i => Some i | _ => None end) tr.

Definition samples_of (tr : list Event) : list (Distribution * ScalarType) :=
  omap (λ ev, match ev with EvSample d T => Some (d, T) | _ => None end) tr.


(** The integral element types (bool included) and their ranges. *)
Definition int_range (T : ScalarType) : option (Z * Z) :=
  match T with
  | kByte => Some (0, 2 ^ 8 - 1)
  | kChar => Some (- 2 ^ 7, 2 ^ 7 - 1)
  | kShort => Some (- 2 ^ 15, 2 ^ 15 - 1)
  | kInt => Some (- 2 ^ 31, 2 ^ 31 - 1)
  | kLong => Some (- 2 ^ 63, 2 ^ 63 - 1)
  | kBool => Some (0, 1)
  | _ => None
  end.

(** [z] is a value of the integral type [T]. *)
Definition representable (T : ScalarType) (z : Z) : Prop :=
  match int_range T with
  | Some (lo, hi) => lo ≤ z ≤ hi
  | None => False
  end.

(** [body] draws with [dist] and assigns the result to element [i]. *)
Definition draws_into (d : Distribution) (T : ScalarType)
    (dist : Z → G → Scalar F * G) (body : Z → @M G F unit) : Prop :=
  ∀ i st, 0 ≤ i < Z.of_nat (length (data st)) →
    body i st =
      let '(v, g') := dist i (generator st) in
      (mkState g' (<[Z.to_nat i := v]> (data st)) (trace st ++ [EvSample d T; EvStore i]),
       Ok tt).

(** [op] calls the distribution object once and touches nothing else. *)
Definition draws_value (d : Distribution) (T : ScalarType)
    (dist : G → Scalar F * G) (op : @M G F (Scalar F)) : Prop :=
  ∀ st, op st =
    let '(v, g') := dist (generator st) in
    (mkState g' (data st) (trace st ++ [EvSample d T]), Ok v).




(** The outcome of a serial fill of [n] elements from the generator [g]: the
    output holds the converted samples, in order, and the log shows one
    call of the distribution object before each assignment. *)
Definition serial_fill {A : Type} (d : Distribution) (T : ScalarType)
    (dist : Z → G → A * G) (c : A → Scalar F) (n : Z) (g : G)
    : @State G F * Outcome unit :=
  let '(xs, g') := draws dist (irange n) g in
  (mkState g' (c <$> xs) (EvCall r_cpu_serial_kernel :: sample_store d T (irange n)), Ok tt).

End Vocabulary.

Section BulkVocabulary.
Context {G F : Type} `{!Arith F, !Distributions G F}.

(** [n] successive draws of [at::uniform_real_distribution<T>(0, 1)]: the
    values and the generator left. *)
Definition uniform_pass (T : ScalarType) (n : Z) (g : G) : list F * G :=
  draws (λ _ : Z, uniform_real_distribution T (fconst 0) (fconst 1)) (irange n) g.

(** The generator a bulk normal fill of [size] elements leaves: [size]
    uniform draws, and 16 more when [size] is not a multiple of 16. *)
Definition after_bulk_fill (T : ScalarType) (size : Z) (g : G) : G :=
  let g1 := (uniform_pass T size g).2 in
  if bool_decide (size mod 16 = 0) then g1 else (uniform_pass T 16 g1).2.

(** The routine that fills a contiguous output of 16 or more elements of
    type [T], and whether its blocks go through the vector routine. *)
Definition bulk_routine (T : ScalarType) : Routine :=
  if bool_decide (T = kFloat) then r_normal_fill_vectorize else r_normal_fill.

Definition bulk_vectorized `{!VecUnit F} (T : ScalarType) : bool :=
  bool_decide (T = kFloat) && bool_decide (Vec_size = 8).

(** The three conditions of the vectorized normal path. *)
Definition vectorizable (self : Tensor F) : Prop :=
  scalar_type self = kFloat ∧ 16 ≤ numel self ∧ is_contiguous self = true.

End BulkVocabulary.

(** Membership of a given element type in a given list of types, as a goal
    or as a hypothesis that holds or that cannot hold. *)
Ltac type_in_list :=
  match goal with
  | H : ?t ∉ _ |- _ => exfalso; apply H; apply (bool_decide_unpack _); by vm_compute
  | H : ?t ∈ _ |- _ => exfalso; apply (bool_decide_pack _) in H; by vm_compute in H
  | |- ?t ∈ _ => apply (bool_decide_unpack _); by vm_compute
  | |- ?t ∉ _ => let H := fresh in intros H; apply (bool_decide_pack _) in H; by vm_compute in H
  end.


(** ** What the blocks compute *)

Section BlockVocabulary.
Context {G F : Type} `{!Arith F, !VecUnit F, !Distributions G F}.

(** The Box-Muller pair of the scalar routine for the uniforms [a] (read
    at [j]) and [b] (read at [j + 8]), every intermediate value held in a
    variable of type [T]. *)
Definition box_muller (T : ScalarType) (mean std a b : F) : F * F :=
  let u1 := fround T (fsub (fconst 1) a) in
  let radius := fround T (fsqrt (fmul (fconst (-2)) (flog u1))) in
  let theta := fround T (fmul (fmul (fconst 2) fpi) b) in
  (fround T (fadd (fmul (fmul radius (fcos theta)) std) mean),
   fround T (fadd (fmul (fmul radius (fsin theta)) std) mean)).

(** The same pair as one lane of the vector routine computes it: single
    precision after every operation, the vector unit's functions, the
    constants, [mean] and [std] converted to float when the vectors were
    built. *)
Definition box_muller_lane (mean std a b : F) : F * F :=
  let r := fround kFloat in
  let u1 := r (fsub (r (fconst 1)) a) in
  let radius := vsqrt (r (fmul (r (fconst (-2))) (vlog u1))) in
  let theta := r (fmul (r (fmul (fconst 2) fpi)) b) in
  (r (fadd (r (fmul (r (fmul radius (vcos theta))) (r std))) (r mean)),
   r (fadd (r (fmul (r (fmul radius (vsin theta))) (r std))) (r mean))).

(** A block of 16 elements transformed pair by pair: element [j] of the
    lower half with element [j] of the upper half; the first components
    replace the lower half, the second ones the upper half. *)
Definition transform_pairs (pair : F → F → F * F) (l : list (Scalar F)) : list (Scalar F) :=
  let lo := as_real <$> take 8 l in
  let hi := as_real <$> take 8 (drop 8 l) in
  zip_with (λ a b, SReal (pair a b).1) lo hi ++ zip_with (λ a b, SReal (pair a b).2) lo hi.

Definition transform_16 (T : ScalarType) (mean std : F) : list (Scalar F) → list (Scalar F) :=
  transform_pairs (box_muller T mean std).

Definition transform_16_vectorize (mean std : F) : list (Scalar F) → list (Scalar F) :=
  transform_pairs (box_muller_lane mean std).

(** A buffer with the block of 16 elements at [off] replaced by [f] of it. *)
Definition with_block (f : list (Scalar F) → list (Scalar F)) (off : nat)
    (d : list (Scalar F)) : list (Scalar F) :=
  take off d ++ f (take 16 (drop off d)) ++ drop (off + 16) d.

(** The first [c] blocks of 16 elements of a buffer replaced by [f] of them. *)
Fixpoint transform_blocks (f : list (Scalar F) → list (Scalar F)) (c : nat)
    (d : list (Scalar F)) : list (Scalar F) :=
  match c with
  | O => d
  | S c' => f (take 16 d) ++ transform_blocks f c' (drop 16 d)
  end.

(** The output of a bulk normal fill of [size] elements of type [elem_t]
    from the generator [g], with blocks transformed by [f]: the first pass
    of uniforms with its complete blocks transformed and, when [size] is not
    a multiple of 16, its last 16 elements replaced by the transformed
    second pass. *)
Definition bulk_data (f : list (Scalar F) → list (Scalar F)) (scalar_t elem_t : ScalarType)
    (size : Z) (g : G) : list (Scalar F) :=
  let '(xs1, g1) := uniform_pass scalar_t size g in
  let d := transform_blocks f (Z.to_nat (size / 16))
             ((λ x, SReal (fround elem_t x)) <$> xs1) in
  if bool_decide (size mod 16 = 0) then d
  else take (Z.to_nat (size - 16)) d
         ++ f ((λ x, SReal (fround elem_t x)) <$> (uniform_pass scalar_t 16 g1).1).

(** The block transformation of the bulk fill of an output of type [T]. *)
Definition bulk_transform (T : ScalarType) (mean std : F) : list (Scalar F) → list (Scalar F) :=
  if bool_decide (T = kFloat) then
    if bool_decide (Vec_size = 8)
    then transform_16_vectorize (fround kFloat mean) (fround kFloat std)
    else transform_16 kFloat (fround kFloat mean) (fround kFloat std)
  else transform_16 T (fround T mean) (fround T std).

(** The uniforms a bulk normal fill of [size] elements of type [T] draws
    from [g], as the buffer holds them: those of the first pass, then, when
    [size] is not a multiple of 16, the 16 of the second pass. *)
Definition bulk_uniforms (T : ScalarType) (size : Z) (g : G) : list F :=
  let '(xs1, g1) := uniform_pass T size g in
  fround T <$> (xs1 ++ if bool_decide (size mod 16 = 0) then []
                       else (uniform_pass T 16 g1).1).

(** The pair that [bulk_transform] applies to two uniforms. *)
Definition bulk_pair (T : ScalarType) (mean std : F) : F → F → F * F :=
  if bool_decide (T = kFloat) then
    if bool_decide (Vec_size = 8)
    then box_muller_lane (fround kFloat mean) (fround kFloat std)
    else box_muller kFloat (fround kFloat mean) (fround kFloat std)
  else box_muller T (fround T mean) (fround T std).

End BlockVocabulary.

(** ** The kernels as one family *)

Section Calls.
Context {G F : Type} `{!RNG G, !Arith F, !VecUnit F, !Distributions G F, !Broadcast F}.

(** A call of one of the kernels of the header: the kernel and its
    arguments, the output and the generator apart. *)
Inductive Call :=
| call_random_from_to (range base : Z)
| call_random_full_64_bits_range
| call_random
| call_normal (mean std : F)
| call_uniform (from_ to_ : F)
| call_cauchy (median sigma : F)
| call_log_normal (mean std : F)
| call_geometric (p : F)
| call_exponential (lambda : F)
| call_bernoulli (p_ : Tensor F)
| call_bernoulli_scalar (p : F).

Definition run_call (c : Call) (self : Tensor F) : @M G F unit :=
  match c with
  | call_random_from_to range base => random_from_to_kernel self range base
  | call_random_full_64_bits_range => random_full_64_bits_range_kernel self
  | call_random => random_kernel self
  | call_normal mean std => normal_kernel self mean std
  | call_uniform from_ to_ => uniform_kernel self from_ to_
  | call_cauchy median sigma => cauchy_kernel self median sigma
  | call_log_normal mean std => log_normal_kernel self mean std
  | call_geometric p => geometric_kernel self p
  | call_exponential lambda => exponential_kernel self lambda
  | call_bernoulli p_ => bernoulli_kernel self p_
  | call_bernoulli_scalar p => bernoulli_kernel_scalar self p
  end.

(** The call fills its output element by element: every call but a normal
    one on a contiguous output of 16 or more elements. *)
Definition per_element (c : Call) (self : Tensor F) : Prop :=
  match c with
  | call_normal _ _ => ¬ (16 ≤ numel self ∧ is_contiguous self = true)
  | _ => True
  end.

(** The errors of the checks on the element type, and those of the
    accesses and of the arithmetic. *)
Definition type_error (e : Error) : Prop :=
  match e with
  | NotImplemented _ _ | CheckFailed _ => True
  | _ => False
  end.

Definition access_error (e : Error) : Prop :=
  match e with
  | OutOfBounds _ | DivisionByZero => True
  | _ => False
  end.

(** Every error that [m] throws satisfies [P]. *)
Definition throws_only {A : Type} (P : Error → Prop) (m : @M G F A) : Prop :=
  ∀ st e, (m st).2 = Throw e → P e.

(** When [op] returns it has called a distribution object of kind [d] at
    [T] once and left the buffer alone. *)
Definition draws_once {A : Type} (d : Distribution) (T : ScalarType) (op : @M G F A) : Prop :=
  ∀ st st' v, op st = (st', Ok v) →
    trace st' = trace st ++ [EvSample d T] ∧ data st' = data st.

End Calls.
(** ** An executable implementation of the interfaces

    Used to run the kernels on concrete inputs.  Numbers are integers, so
    arithmetic is exact and rounding to a floating type keeps as many
    significant bits as the type has; the generator is the sequence of
    32-bit words it is going to produce. *)

Module Ref.

Definition tape_random (g : list Z) : Z * list Z :=
  match g with
  | [] => (0, [])
  | w :: g' => (w mod 2 ^ 32, g')
  end.

(** Two 32-bit draws, the first one in the high half. *)
Definition tape_random64 (g : list Z) : Z * list Z :=
  let '(hi, g1) := tape_random g in
  let '(lo, g2) := tape_random g1 in
  (hi * 2 ^ 32 + lo, g2).

#[export] Instance tape : RNG (list Z) :=
  {| random := tape_random; random64 := tape_random64 |}.

(** [std::numeric_limits<T>::digits] *)
Definition digits (T : ScalarType) : Z :=
  match T with
  | kDouble => 53
  | kFloat => 24
  | kHalf => 11
  | kBFloat16 => 8
  | _ => 64
  end.

(** Round to [p] significant bits, to nearest, ties to even. *)
Definition round_to_digits (p x : Z) : Z :=
  let a := Z.abs x in
  if bool_decide (a < 2 ^ p) then x
  else
    let e := Z.log2 a + 1 - p in
    let q := a / 2 ^ e in
    let r := a mod 2 ^ e in
    let h := 2 ^ (e - 1) in
    let q' := if bool_decide (r < h) then q
              else if bool_decide (h < r) then q + 1
              else if Z.even q then q else q + 1 in
    Z.sgn x * (q' * 2 ^ e).

(** The functions with no counterpart on integers are the identity. *)
#[export] Instance integers : Arith Z :=
  {| fconst := id; fpi := 3;
     fadd := Z.add; fsub := Z.sub; fmul := Z.mul;
     flog := id; fsqrt := id; fcos := id; fsin := id;
     fround := λ T, round_to_digits (digits T);
     ftrunc := λ _, id;
     of_int64 := λ T, round_to_digits (digits T) |}.

#[export] Instance eight_lanes : VecUnit Z :=
  {| Vec_size := 8; vlog := id; vsqrt := id; vcos := id; vsin := id |}.

(** Modelled from the spec: [at::uniform_real_distribution<T>], the "direct
    linear rescale of a uniform draw in [0,1) into [from, to)".  The draw is
    [digits] random bits over [2^digits] (a 64-bit draw for double, a 32-bit
    draw otherwise). *)
Definition linear_rescale (T : ScalarType) (from to : Z) (g : list Z) : Z * list Z :=
  let '(val, g') := if bool_decide (T = kDouble) then tape_random64 g else tape_random g in
  ((val mod 2 ^ digits T) * (to - from) / 2 ^ digits T + from, g').

(** Modelled from the spec: [at::bernoulli_distribution<T>], "one uniform
    draw compared to p". *)
Definition coin (T : ScalarType) (p : Z) (g : list Z) : Z * list Z :=
  let '(u, g') := linear_rescale T 0 1 g in
  (if bool_decide (u < p) then 1 else 0, g').

(** The other distributions have no closed form on integers: each is
    replaced by a function of one uniform draw among [0..15] with the
    right parameters and support. *)
Definition stand_in (T : ScalarType) (f : Z → Z) (g : list Z) : Z * list Z :=
  let '(u, g') := linear_rescale T 0 16 g in
  (f u, g').

(** A uniform draw in [[0, 1)] as the rational it is: [digits] random bits
    over [2^digits] (a 64-bit draw for double, a 32-bit draw otherwise). *)
Definition unit_draw (T : ScalarType) (g : list Z) : Q * list Z :=
  let '(val, g') := if bool_decide (T = kDouble) then tape_random64 g else tape_random g in
  (Qred (Qmake (val mod 2 ^ digits T) (Z.to_pos (2 ^ digits T))), g').

(** Modelled from the spec: [at::geometric_distribution] of
    ATen/core/DistributionsHelper.h is not part of this header.  It is the
    "inverse-CDF on a uniform draw given success probability p", with
    "P(X=k) = p(1-p)^(k-1) for k ≥ 1": for a draw [u] the count [k ≥ 1]
    with [(1-p)^k ≤ u < (1-p)^(k-1)], the ceiling of [log u / log (1 - p)].
    [geometric_search] tries [k], [k + 1], ... with [acc = (1-p)^k]; it
    gives up after [fuel] counts (the draw 0 has no count).  The parameter
    is a probability, [0 < p < 1]: the constructor of the distribution
    refuses any other. *)
Fixpoint geometric_search (fuel : nat) (q u acc : Q) (k : Z) : Z :=
  match fuel with
  | O => k
  | S fuel' =>
      if Qle_bool acc u then k
      else geometric_search fuel' q u (Qred (acc * q)) (k + 1)
  end.

Definition geometric_count (p u : Q) : Z :=
  geometric_search 1074 (1 - p) u (Qred (1 - p)) 1.

(** Over the integers the sampler is the same, with the parameter read as
    the rational it is.  No integer is a probability strictly between 0
    and 1, so no example runs the geometric kernel over the integers: those
    are run over the rationals, below. *)
Definition trials (T : ScalarType) (p : Z) (g : list Z) : Z * list Z :=
  let '(u, g') := unit_draw T g in
  (geometric_count (inject_Z p) u, g').

Definition location_scale (T : ScalarType) (loc scale : Z) : list Z → Z * list Z :=
  stand_in T (λ u, loc + scale * (u - 8)).

Definition full_range (T : ScalarType) (g : list Z) : Scalar Z * list Z :=
  let '(v, g') := tape_random64 g in
  (if isFloatingType T then SReal (round_to_digits (digits T) (wrap_signed 64 v))
   else SInt (wrap_signed 64 v), g').

Definition unbounded (T : ScalarType) (g : list Z) : Scalar Z * list Z :=
  let '(v, g') := tape_random g in
  (if isFloatingType T then SReal (round_to_digits (digits T) (v mod 2 ^ digits T))
   else SInt (v mod 2 ^ 7), g').

#[export] Instance distributions : Distributions (list Z) Z :=
  {| uniform_real_distribution := linear_rescale;
     normal_distribution := location_scale;
     cauchy_distribution := location_scale;
     lognormal_distribution := λ T mean std,
       stand_in T (λ u, 1 + Z.abs (mean + std * (u - 8)));
     geometric_distribution := trials;
     exponential_distribution := λ T lambda, stand_in T (λ u, u);
     bernoulli_distribution := coin;
     uniform_int_full_range_distribution := full_range;
     uniform_int_distribution := unbounded |}.

(** One-dimensional broadcasting: a single probability is repeated. *)
#[export] Instance flat : Broadcast Z :=
  {| expand_inplace := λ sz p,
       match storage p with
       | [v] => mkTensor (scalar_type p) sz (is_contiguous p)
                  (replicate (Z.to_nat (foldr Z.mul 1 sz)) v)
       | _ => p
       end |}.

(** Inputs of the examples. *)
Definition words : list Z := [1536; 0; 77; 4096; 12; 99].

Definition vector (T : ScalarType) (l : list (Scalar Z)) : Tensor Z :=
  mkTensor T [Z.of_nat (length l)] true l.

Definition long2 : Tensor Z := vector kLong [SInt 0; SInt 0].
Definition half1 : Tensor Z := vector kHalf [SReal 0].
Definition half2 : Tensor Z := vector kHalf [SReal 1; SReal 0].
Definition double17 : Tensor Z := vector kDouble (replicate 17 (SReal 0)).
Definition float17 : Tensor Z := vector kFloat (replicate 17 (SReal 0)).
Definition float17' : Tensor Z := vector kFloat (replicate 17 (SReal 5)).

(** A generator of 40 words; two float outputs of sizes [[16]] that hold
    the same values, the first contiguous, the second a strided view. *)
Definition words40 : list Z := seqZ 1 40.
Definition float16 : Tensor Z := mkTensor kFloat [16] true (replicate 16 (SReal 0)).
Definition float16_strided : Tensor Z := mkTensor kFloat [16] false (replicate 16 (SReal 0)).

End Ref.

(** ** The same over the rationals

    Numbers are rationals, so that a probability strictly between 0 and 1
    exists; arithmetic is exact, rounding to a floating type keeps as many
    significant bits as the type has, conversion to an integer type
    truncates toward zero.  The generator is that of [Ref]. *)

Module RefQ.
Import Ref.

(** [2^e] for any integer [e]. *)
Definition Qpow2 (e : Z) : Q :=
  if bool_decide (0 ≤ e) then inject_Z (2 ^ e) else Qmake 1 (Z.to_pos (2 ^ (- e))).

(** Round to [p] significant bits, to nearest, ties to even. *)
Definition Qround_to_digits (p : Z) (x : Q) : Q :=
  let n := Z.abs (Qnum x) in
  if bool_decide (n = 0) then 0%Q
  else
    let e0 := Z.log2 n - Z.log2 (Z.pos (Qden x)) in
    (* the exponent [e] of the leading bit: [2^e ≤ |x| < 2^(e+1)] *)
    let e := if Qle_bool (Qpow2 e0) (Qabs x) then e0 else e0 - 1 in
    (* [|x|] in units of the last place kept *)
    let m := (Qabs x / Qpow2 (e + 1 - p))%Q in
    let q := Qfloor m in
    let q' := match (m - inject_Z q ?= 1 # 2)%Q with
              | Lt => q
              | Gt => q + 1
              | Eq => if Z.even q then q else q + 1
              end in
    Qred (inject_Z (Z.sgn (Qnum x) * q') * Qpow2 (e + 1 - p)).

(** [static_cast] of a floating-point number to an integer type. *)
Definition Qtrunc (x : Q) : Z := Z.quot (Qnum x) (Z.pos (Qden x)).

(** The functions with no counterpart on rationals are the identity, and
    [pi] is 355/113. *)
#[export] Instance rationals : Arith Q :=
  {| fconst := inject_Z; fpi := 355 # 113;
     fadd := λ x y, Qred (x + y); fsub := λ x y, Qred (x - y);
     fmul := λ x y, Qred (x * y);
     flog := id; fsqrt := id; fcos := id; fsin := id;
     fround := λ T, Qround_to_digits (digits T);
     ftrunc := λ _, Qtrunc;
     of_int64 := λ T z, Qround_to_digits (digits T) (inject_Z z) |}.

(** Modelled from the spec: [at::uniform_real_distribution<T>], the "direct
    linear rescale of a uniform draw in [0,1) into [from, to)". *)
Definition Qlinear_rescale (T : ScalarType) (from to : Q) (g : list Z) : Q * list Z :=
  let '(u, g') := unit_draw T g in
  (Qround_to_digits (digits T) (u * (to - from) + from), g').

(** Modelled from the spec: [at::bernoulli_distribution<T>], "one uniform
    draw compared to p". *)
Definition Qcoin (T : ScalarType) (p : Q) (g : list Z) : Q * list Z :=
  let '(u, g') := unit_draw T g in
  (if Qle_bool p u then 0%Q else 1%Q, g').

(** Modelled from the spec: [at::geometric_distribution<T>], the count of
    [geometric_count] for one uniform draw. *)
Definition Qtrials (T : ScalarType) (p : Q) (g : list Z) : Q * list Z :=
  let '(u, g') := unit_draw T g in
  (inject_Z (geometric_count p u), g').

(** The other distributions have no closed form on rationals: each is
    replaced by a function of one uniform draw with the right parameters. *)
Definition Qstand_in (T : ScalarType) (f : Q → Q) (g : list Z) : Q * list Z :=
  let '(u, g') := unit_draw T g in
  (Qred (f u), g').

Definition Qlocation_scale (T : ScalarType) (loc scale : Q) : list Z → Q * list Z :=
  Qstand_in T (λ u, loc + scale * (16 * u - 8))%Q.

Definition Qfull_range (T : ScalarType) (g : list Z) : Scalar Q * list Z :=
  let '(v, g') := tape_random64 g in
  (if isFloatingType T then SReal (Qround_to_digits (digits T) (inject_Z (wrap_signed 64 v)))
   else SInt (wrap_signed 64 v), g').

Definition Qunbounded (T : ScalarType) (g : list Z) : Scalar Q * list Z :=
  let '(v, g') := tape_random g in
  (if isFloatingType T then SReal (inject_Z (v mod 2 ^ digits T))
   else SInt (v mod 2 ^ 7), g').

#[export] Instance rational_distributions : Distributions (list Z) Q :=
  {| uniform_real_distribution := Qlinear_rescale;
     normal_distribution := Qlocation_scale;
     cauchy_distribution := Qlocation_scale;
     lognormal_distribution := λ T mean std,
       Qstand_in T (λ u, 1 + Qabs (mean + std * (16 * u - 8)))%Q;
     geometric_distribution := Qtrials;
     exponential_distribution := λ T lambda, Qstand_in T (λ u, u / lambda)%Q;
     bernoulli_distribution := Qcoin;
     uniform_int_full_range_distribution := Qfull_range;
     uniform_int_distribution := Qunbounded |}.

(** An output of two longs. *)
Definition long2q : Tensor Q := mkTensor kLong [2] true [SInt 0; SInt 0].

End RefQ.

(** More inputs of the examples: a vector unit of four lanes, on which the
    vectorized fill falls back to the scalar block routine; outputs of 17
    and of 3 doubles, of no element, and of a type no kernel dispatches on;
    probabilities of an integral type. *)
Module Ref'.
Import Ref.

Definition four_lanes : VecUnit Z :=
  {| Vec_size := 4; vlog := id; vsqrt := id; vcos := id; vsin := id |}.

Definition ramp17 : Tensor Z := vector kDouble (SReal <$> seqZ 1 17).
Definition double3 : Tensor Z := vector kDouble (replicate 3 (SReal 0)).
Definition float0 : Tensor Z := vector kFloat [].
Definition complex2 : Tensor Z := vector kComplexFloat [SReal 0; SReal 0].
Definition long_p : Tensor Z := vector kLong [SInt 1; SInt 0].

End Ref'.

(** ** Properties *)

Section Properties.
Context {G F : Type} `{!RNG G, !Arith F, !VecUnit F, !Distributions G F, !Broadcast F}.

Implicit Types (st : @State G F) (g : G) (self iter : Tensor F).
Local Abbreviation M := (@M G F).

(** *** The monad *)

Lemma bind_ok {A B} (m : M A) (k : A → M B) st st' a :
  m st = (st', Ok a) → (m ≫= k) st = k a st'.
Proof. intros E. unfold mbind, M_bind. by rewrite E. Qed.


Lemma store_ok i v st :
  0 ≤ i < Z.of_nat (length (data st)) →
  store i v st =
    (mkState (generator st) (<[Z.to_nat i := v]> (data st)) (trace st ++ [EvStore i]), Ok tt).
Proof. intros Hi. unfold store. by rewrite bool_decide_true. Qed.

Lemma load_ok i st :
  0 ≤ i < Z.of_nat (length (data st)) →
  ∃ v, data st !! Z.to_nat i = Some v ∧ load i st = (st, Ok v).
Proof.
  intros Hi. unfold load. rewrite bool_decide_true by lia.
  destruct (lookup_lt_is_Some_2 (data st) (Z.to_nat i)) as [v Hv]; [lia|].
  exists v. by rewrite Hv.
Qed.

(** *** Draws *)

Lemma draws_length {I A} (dist : I → G → A * G) l g :
  length (draws dist l g).1 = length l.
Proof.
  revert g. induction l as [|i l IH]; intros g; simpl; [done|].
  destruct (dist i g) as [x g1]. specialize (IH g1).
  destruct (draws dist l g1) as [xs g2]. simpl in *. by rewrite IH.
Qed.

Lemma draws_fmap {I A B} (c : A → B) (dist : I → G → A * G) l g :
  draws (λ i g, let '(x, g') := dist i g in (c x, g')) l g =
  let '(xs, g') := draws dist l g in (c <$> xs, g').
Proof.
  revert g. induction l as [|i l IH]; intros g; simpl; [done|].
  destruct (dist i g) as [x g1]. rewrite IH.
  by destruct (draws dist l g1) as [xs g2].
Qed.


(** *** Filling a range of the buffer, one draw per element *)

Lemma for_each_draws_into d T dist body (n : nat) :
  draws_into d T dist body →
  ∀ (k : nat) st, (k + n ≤ length (data st))%nat →
  for_each (seqZ (Z.of_nat k) (Z.of_nat n)) body st =
    let '(vs, g') := draws dist (seqZ (Z.of_nat k) (Z.of_nat n)) (generator st) in
    (mkState g' (take k (data st) ++ vs ++ drop (k + n) (data st))
       (trace st ++ sample_store d T (seqZ (Z.of_nat k) (Z.of_nat n))), Ok tt).
Proof.
  intros Hbody. induction n as [|n IH]; intros k st Hk.
  - simpl. unfold mret, M_ret, sample_store. simpl.
    rewrite Nat.add_0_r, take_drop, app_nil_r. by destruct st.
  - rewrite seqZ_cons by lia.
    replace (Z.pred (Z.of_nat (S n))) with (Z.of_nat n) by lia.
    replace (Z.succ (Z.of_nat k)) with (Z.of_nat (S k)) by lia.
    simpl. specialize (Hbody (Z.of_nat k) st). rewrite Nat2Z.id in Hbody.
    destruct (dist (Z.of_nat k) (generator st)) as [v g1] eqn:Ed.
    erewrite bind_ok; [|apply Hbody; lia].
    rewrite IH by (simpl; rewrite length_insert; lia). simpl.
    destruct (draws dist _ g1) as [vs g2]. f_equal. f_equal.
    + destruct (lookup_lt_is_Some_2 (data st) k) as [x Hx]; [lia|].
      erewrite take_S_r by (by apply list_lookup_insert_eq; lia).
      rewrite take_insert_ge by lia. rewrite <- app_assoc. simpl.
      rewrite drop_insert_lt by lia.
      by rewrite Nat.add_succ_r.
    + unfold sample_store. simpl. by rewrite <- app_assoc.
Qed.

Lemma sample_draws_value d T (dist : G → Scalar F * G) :
  draws_value d T dist (sample d T dist).
Proof. intros st. unfold sample. by destruct (dist (generator st)). Qed.

Lemma sample_cast_draws_value {A} d T (dist : G → A * G) (c : A → Scalar F) :
  draws_value d T (λ g, let '(x, g') := dist g in (c x, g'))
    (x ← sample d T dist; mret (c x)).
Proof.
  intros st. unfold mbind, M_bind, sample, mret, M_ret.
  by destruct (dist (generator st)).
Qed.

Lemma store_after_draw_at d T (dist : Z → G → Scalar F * G) (ops : Z → M (Scalar F)) :
  (∀ i, draws_value d T (dist i) (ops i)) →
  draws_into d T dist (λ i, v ← ops i; store i v).
Proof.
  intros Hop i st Hi. unfold mbind, M_bind. rewrite (Hop i st).
  destruct (dist i (generator st)) as [v g']. rewrite store_ok by done.
  simpl. by rewrite <- app_assoc.
Qed.

Lemma store_after_draw d T (dist : G → Scalar F * G) op :
  draws_value d T dist op → draws_into d T (λ _, dist) (λ i, v ← op; store i v).
Proof.
  intros Hop i st Hi. unfold mbind, M_bind. rewrite (Hop st).
  destruct (dist (generator st)) as [v g']. rewrite store_ok by done.
  simpl. by rewrite <- app_assoc.
Qed.

(** The serial kernel overwrites the whole output with the successive
    results of [op]. *)
Lemma cpu_serial_kernel_run iter op d T dist st :
  draws_value d T dist op →
  length (data st) = length (storage iter) →
  cpu_serial_kernel iter op st =
    let '(vs, g') := draws (λ _, dist) (irange (numel iter)) (generator st) in
    (mkState g' vs
       (trace st ++ EvCall r_cpu_serial_kernel :: sample_store d T (irange (numel iter))),
     Ok tt).
Proof.
  intros Hop Hlen. unfold cpu_serial_kernel, irange, numel.
  erewrite bind_ok by reflexivity.
  pose proof (for_each_draws_into d T _ _ (length (storage iter))
                (store_after_draw d T dist op Hop) 0%nat) as Hrun.
  simpl in Hrun. rewrite Hrun by (simpl; lia). simpl.
  pose proof (draws_length (λ _ : Z, dist) (seqZ 0 (Z.of_nat (length (storage iter))))
                (generator st)) as Hl.
  destruct (draws _ _ (generator st)) as [vs g']. simpl in Hl.
  rewrite length_seqZ, Nat2Z.id in Hl.
  rewrite drop_ge by lia. rewrite app_nil_r.
  by rewrite <- app_assoc.
Qed.

Lemma cpu_serial_kernel_cast_run {A} iter d T (dist : G → A * G) (c : A → Scalar F) st :
  length (data st) = length (storage iter) →
  cpu_serial_kernel iter (x ← sample d T dist; mret (c x)) st =
    let '(xs, g') := draws (λ _, dist) (irange (numel iter)) (generator st) in
    (mkState g' (c <$> xs)
       (trace st ++ EvCall r_cpu_serial_kernel :: sample_store d T (irange (numel iter))),
     Ok tt).
Proof.
  intros Hlen.
  rewrite (cpu_serial_kernel_run iter _ d T _ st (sample_cast_draws_value d T dist c) Hlen).
  rewrite (draws_fmap c (λ _ : Z, dist)).
  by destruct (draws _ _ (generator st)).
Qed.

Lemma cpu_serial_kernel_enter {A} iter d T (dist : G → A * G) (c : A → Scalar F) g :
  cpu_serial_kernel iter (x ← sample d T dist; mret (c x)) (enter iter g) =
    serial_fill d T (λ _, dist) c (numel iter) g.
Proof.
  rewrite cpu_serial_kernel_cast_run by done. unfold serial_fill. simpl.
  by destruct (draws _ _ g).
Qed.

Lemma cpu_serial_kernel_enter_id iter d T (dist : G → Scalar F * G) g :
  cpu_serial_kernel iter (sample d T dist) (enter iter g) =
    serial_fill d T (λ _, dist) id (numel iter) g.
Proof.
  rewrite (cpu_serial_kernel_run iter _ d T dist (enter iter g)
             (sample_draws_value d T dist) eq_refl).
  unfold serial_fill. simpl. destruct (draws _ _ g). by rewrite list_fmap_id.
Qed.

(** *** Loops *)

Lemma for_each_fmap {I J} (f : I → J) (l : list I) (body : J → M unit) :
  for_each (f <$> l) body = for_each l (λ i, body (f i)).
Proof.
  induction l as [|i l IH]; [done|]. rewrite fmap_cons.
  change (for_each (f i :: (f <$> l)) body) with (body (f i) ;; for_each (f <$> l) body).
  by rewrite IH.
Qed.

Lemma for_each_ext {I} (l : list I) (body1 body2 : I → M unit) st :
  (∀ i st, i ∈ l → body1 i st = body2 i st) → for_each l body1 st = for_each l body2 st.
Proof.
  revert st. induction l as [|i l IH]; intros st Hext; [done|].
  simpl. unfold mbind, M_bind. rewrite Hext by left.
  destruct (body2 i st) as [st' [[]|e]]; [|done].
  apply IH. intros j st'' Hj. apply Hext. by right.
Qed.

(** A loop whose iterations leave the generator alone and keep the length
    of the buffer does so as a whole, and logs what they log. *)
Lemma for_each_buffer {I} (l : list I) (body : I → M unit) (tr : I → list Event) (n : nat) :
  (∀ i st, i ∈ l → length (data st) = n →
     ∃ d', length d' = n ∧
       body i st = (mkState (generator st) d' (trace st ++ tr i), Ok tt)) →
  ∀ st, length (data st) = n →
    ∃ d', length d' = n ∧
      for_each l body st = (mkState (generator st) d' (trace st ++ (l ≫= tr)), Ok tt).
Proof.
  induction l as [|i l IH]; intros Hbody st Hlen.
  - exists (data st). split; [done|]. simpl. unfold mret, M_ret.
    rewrite app_nil_r. by destruct st.
  - destruct (Hbody i st) as (d1 & Hd1 & Hrun1); [by left|done|].
    destruct (IH (λ j st' Hj, Hbody j st' (list_elem_of_further _ _ _ Hj))
                (mkState (generator st) d1 (trace st ++ tr i)) Hd1) as (d2 & Hd2 & Hrun2).
    exists d2. split; [done|]. simpl. erewrite bind_ok by exact Hrun1.
    rewrite Hrun2. simpl. by rewrite <- app_assoc.
Qed.

(** The stepping loop runs its body at [i], [i + 16], ... below [bound]:
    [c] times when [bound] lies in the [c]-th step, given fuel for it. *)
Lemma for_step_16_for_each (body : Z → M unit) bound (c : nat) :
  ∀ fuel i, (c < fuel)%nat →
    bound ≤ i + 16 * Z.of_nat c →
    (0 < Z.of_nat c → i + 16 * (Z.of_nat c - 1) < bound) →
    for_step_16 fuel i bound body =
    for_each ((λ k, i + 16 * k) <$> seqZ 0 (Z.of_nat c)) body.
Proof.
  induction c as [|c IH]; intros fuel i Hfuel Hup Hlow.
  - destruct fuel as [|fuel]; [lia|]. simpl. by rewrite bool_decide_false by lia.
  - destruct fuel as [|fuel]; [lia|]. simpl. rewrite bool_decide_true by lia.
    rewrite (IH fuel (i + 16)) by lia.
    rewrite (seqZ_cons 0 (Z.of_nat (S c))) by lia.
    replace (Z.pred (Z.of_nat (S c))) with (Z.of_nat c) by lia.
    rewrite fmap_cons.
    replace (i + 16 * 0) with i by lia.
    rewrite <- (fmap_add_seqZ 1 0), <- list_fmap_compose.
    replace ((λ k, i + 16 * k) ∘ Z.add 1 <$> seqZ 0 (Z.of_nat c))
      with ((λ k, i + 16 + 16 * k) <$> seqZ 0 (Z.of_nat c)); [done|].
    apply list_fmap_ext. intros _ k _. simpl. lia.
Qed.

Lemma for_step_16_blocks (body : Z → M unit) size :
  0 ≤ size →
  for_step_16 (S (Z.to_nat size)) 0 (size - 15) body = for_each (block_offsets size) body.
Proof.
  intros Hsize. unfold block_offsets.
  rewrite (for_step_16_for_each body (size - 15) (Z.to_nat (size / 16))).
  - rewrite Z2Nat.id by (apply Z.div_pos; lia). done.
  - apply Nat.lt_succ_r, Z2Nat.inj_le; [apply Z.div_pos; lia|lia|].
    apply Z.div_le_upper_bound; lia.
  - rewrite Z2Nat.id by (apply Z.div_pos; lia).
    pose proof (Z.mul_succ_div_gt size 16). lia.
  - rewrite Z2Nat.id by (apply Z.div_pos; lia). intros Hpos.
    pose proof (Z.mul_div_le size 16). lia.
Qed.

Lemma draws_const {I J A} (dist : G → A * G) (l1 : list I) (l2 : list J) g :
  length l1 = length l2 → draws (λ _, dist) l1 g = draws (λ _, dist) l2 g.
Proof.
  revert l2 g. induction l1 as [|i l1 IH]; intros [|j l2] g Hlen; try done.
  simpl. destruct (dist g) as [x g1]. by rewrite (IH l2 g1) by (simpl in Hlen; lia).
Qed.

(** *** The passes of uniform draws *)

Lemma fill_uniform_run scalar_t elem_t (off n : nat) st :
  (off + n ≤ length (data st))%nat →
  fill_uniform scalar_t elem_t (Z.of_nat off) (Z.of_nat n) st =
    let '(xs, g') :=
      draws (λ _ : Z, uniform_real_distribution scalar_t (fconst 0) (fconst 1))
        (irange (Z.of_nat n)) (generator st) in
    (mkState g'
       (take off (data st) ++ ((λ x, SReal (fround elem_t x)) <$> xs)
          ++ drop (off + n) (data st))
       (trace st ++ sample_store uniform_real scalar_t (seqZ (Z.of_nat off) (Z.of_nat n))),
     Ok tt).
Proof.
  intros Hlen. unfold fill_uniform, irange.
  pose proof (for_each_fmap (Z.add (Z.of_nat off)) (seqZ 0 (Z.of_nat n))
    (λ i, x ← sample uniform_real scalar_t
                (uniform_real_distribution scalar_t (fconst 0) (fconst 1));
          store i (SReal (fround elem_t x)))) as Hshift.
  simpl in Hshift. rewrite <- Hshift. clear Hshift.
  rewrite fmap_add_seqZ, Z.add_0_r.
  rewrite (for_each_draws_into uniform_real scalar_t
             (λ _ g, let '(x, g') := uniform_real_distribution scalar_t (fconst 0) (fconst 1) g
                     in (SReal (fround elem_t x), g'))); [|..|done].
  - rewrite (draws_fmap (λ x, SReal (fround elem_t x))
               (λ _ : Z, uniform_real_distribution scalar_t (fconst 0) (fconst 1))).
    rewrite (draws_const _ (seqZ (Z.of_nat off) (Z.of_nat n)) (seqZ 0 (Z.of_nat n)))
      by (by rewrite !length_seqZ).
    by destruct (draws _ _ (generator st)).
  - intros i st' Hi. unfold mbind, M_bind, sample.
    destruct (uniform_real_distribution _ _ _ (generator st')) as [x g'].
    rewrite store_ok by done. simpl. by rewrite <- app_assoc.
Qed.

(** *** The Box-Muller blocks *)

Lemma normal_fill_16_run scalar_t off mean std (n : nat) st :
  0 ≤ off → off + 16 ≤ Z.of_nat n → length (data st) = n →
  ∃ d', length d' = n ∧
    normal_fill_16 scalar_t off mean std st =
      (mkState (generator st) d' (trace st ++ block_trace false off), Ok tt).
Proof.
  intros Hoff Hend Hlen. unfold normal_fill_16.
  erewrite bind_ok by reflexivity.
  set (st1 := mkState (generator st) (data st) (trace st ++ [EvCall (r_normal_fill_16 off)])).
  replace (trace st ++ block_trace false off)
    with (trace st1 ++ (irange 8 ≫= λ j, [EvStore (off + j); EvStore (off + (j + 8))]))
    by (simpl; by rewrite <- app_assoc).
  change (generator st) with (generator st1).
  apply for_each_buffer; [|done]. clear st1.
  intros j st' Hj Hlen'. apply elem_of_seqZ in Hj.
  destruct (load_ok (off + j) st') as (v1 & _ & Hv1); [lia|].
  destruct (load_ok (off + (j + 8)) st') as (v2 & _ & Hv2); [lia|].
  erewrite bind_ok by exact Hv1. erewrite bind_ok by exact Hv2.
  erewrite bind_ok by (apply store_ok; lia).
  rewrite store_ok by (simpl; rewrite length_insert; lia).
  eexists. split; [|simpl; by rewrite <- app_assoc].
  by rewrite !length_insert.
Qed.

Lemma load_lanes_run (l : list Z) st :
  (∀ i, i ∈ l → 0 ≤ i < Z.of_nat (length (data st))) →
  ∃ vs, length vs = length l ∧ load_lanes l st = (st, Ok vs).
Proof.
  induction l as [|i l IH]; intros Hl.
  - by exists [].
  - destruct (load_ok i st) as (v & _ & Hv); [apply Hl; by left|].
    destruct IH as (vs & Hvs & Hrun); [intros j Hj; apply Hl; by right|].
    exists (as_real v :: vs). split; [simpl; by rewrite Hvs|].
    simpl. erewrite bind_ok by exact Hv. by erewrite bind_ok by exact Hrun.
Qed.

Lemma bind_singleton {A B} (f : A → B) (l : list A) : l ≫= (λ x, [f x]) = f <$> l.
Proof. induction l as [|x l IH]; [done|]. by rewrite bind_cons, fmap_cons, IH. Qed.

Lemma Vec_store_run (v : Vec) off (n : nat) st :
  0 ≤ off → off + Z.of_nat (length v) ≤ Z.of_nat n → length (data st) = n →
  ∃ d', length d' = n ∧
    Vec_store v off st =
      (mkState (generator st) d'
         (trace st ++ (EvStore <$> seqZ off (Z.of_nat (length v)))), Ok tt).
Proof.
  intros Hoff Hend Hlen. unfold Vec_store.
  replace (EvStore <$> seqZ off (Z.of_nat (length v)))
    with (zip (seqZ off (Z.of_nat (length v))) v ≫= λ ix, [EvStore ix.1]).
  2:{ rewrite (bind_singleton (λ ix : Z * F, EvStore ix.1)).
      transitivity (EvStore <$> (zip (seqZ off (Z.of_nat (length v))) v).*1).
      - by rewrite <- list_fmap_compose.
      - by rewrite fst_zip by (rewrite length_seqZ; lia). }
  apply for_each_buffer; [|done].
  intros [i x] st' Hix Hlen'. apply elem_of_zip_l, elem_of_seqZ in Hix.
  simpl. rewrite store_ok by lia.
  eexists. split; [|done]. by rewrite length_insert.
Qed.

Lemma normal_fill_16_vectorize_run off (two_pi one minus_two mean std : Vec) (n : nat) st :
  Vec_size = 8 →
  length two_pi = 8%nat → length one = 8%nat → length minus_two = 8%nat →
  length mean = 8%nat → length std = 8%nat →
  0 ≤ off → off + 16 ≤ Z.of_nat n → length (data st) = n →
  ∃ d', length d' = n ∧
    normal_fill_16_vectorize off two_pi one minus_two mean std st =
      (mkState (generator st) d' (trace st ++ block_trace true off), Ok tt).
Proof.
  intros Hvec H1 H2 H3 H4 H5 Hoff Hend Hlen. unfold normal_fill_16_vectorize.
  erewrite bind_ok by reflexivity. unfold Vec_loadu. rewrite Hvec.
  set (st1 := mkState _ _ _).
  destruct (load_lanes_run (seqZ off 8) st1) as (d1 & Hd1 & Hl1).
  { intros i Hi%elem_of_seqZ. simpl. lia. }
  destruct (load_lanes_run (seqZ (off + 8) 8) st1) as (u2 & Hu2 & Hl2).
  { intros i Hi%elem_of_seqZ. simpl. lia. }
  rewrite length_seqZ in Hd1, Hu2.
  erewrite bind_ok by exact Hl1. erewrite bind_ok by exact Hl2.
  match goal with
  | |- context [Vec_store ?v off ≫= _] =>
      destruct (Vec_store_run v off n st1) as (d2 & Hd2 & Hs1);
        [done| |done|];
        [|assert (Hv1 : length v = 8%nat)]
  end.
  1,2: unfold Vec_add, Vec_mul, Vec_sub;
       repeat (rewrite length_zip_with || rewrite length_fmap); lia.
  erewrite bind_ok by exact Hs1. rewrite Hv1.
  match goal with
  | |- context [Vec_store ?v (off + 8) ?s] =>
      destruct (Vec_store_run v (off + 8) n s) as (d3 & Hd3 & Hs2);
        [lia| |done|];
        [|assert (Hv2 : length v = 8%nat)]
  end.
  1,2: unfold Vec_add, Vec_mul, Vec_sub;
       repeat (rewrite length_zip_with || rewrite length_fmap); lia.
  exists d3. split; [done|]. rewrite Hs2, Hv2. simpl.
  rewrite <- !app_assoc. done.
Qed.

(** *** The bulk fills *)


(** What follows the first pass, for any block routine that behaves as the
    two routines of the header do: the complete blocks, then for a size
    that is not a multiple of 16 the second pass and the last block. *)
Lemma blocks_and_tail_run (block : Z → M unit) vectorized scalar_t elem_t size st :
  (∀ off (n : nat) st, 0 ≤ off → off + 16 ≤ Z.of_nat n → length (data st) = n →
     ∃ d', length d' = n ∧
       block off st = (mkState (generator st) d' (trace st ++ block_trace vectorized off),
                       Ok tt)) →
  16 ≤ size → Z.of_nat (length (data st)) = size →
  ∃ d', length d' = length (data st) ∧
    (for_step_16 (S (Z.to_nat size)) 0 (size - 15) block ;;
     if bool_decide (Z.rem size 16 ≠ 0) then
       fill_uniform scalar_t elem_t (size - 16) 16 ;; block (size - 16)
     else mret tt) st =
    (mkState
       (if bool_decide (size mod 16 = 0) then generator st
        else (uniform_pass scalar_t 16 (generator st)).2)
       d'
       (trace st ++ complete_blocks vectorized size ++ tail_block vectorized scalar_t size),
     Ok tt).
Proof.
  intros Hblock Hsize Hlen. unfold uniform_pass.
  rewrite for_step_16_blocks by lia.
  destruct (for_each_buffer (block_offsets size) block (block_trace vectorized)
              (length (data st))) with (st := st) as (d1 & Hd1 & Hrun1); [|done|].
  { intros off st' Hoff Hlen'. apply Hblock; [..|done].
    - apply list_elem_of_fmap in Hoff as (k & -> & Hk%elem_of_seqZ). lia.
    - apply list_elem_of_fmap in Hoff as (k & -> & Hk%elem_of_seqZ).
      pose proof (Z.mul_div_le size 16). lia. }
  erewrite bind_ok by exact Hrun1.
  rewrite Z.rem_mod_nonneg by lia. unfold tail_block.
  destruct (decide (size mod 16 = 0)) as [Hrem|Hrem].
  - rewrite bool_decide_false by lia. rewrite (bool_decide_true _ Hrem).
    exists d1. split; [done|]. by rewrite app_nil_r.
  - rewrite bool_decide_true by lia. rewrite (bool_decide_false _ Hrem).
    pose proof (fill_uniform_run scalar_t elem_t (Z.to_nat (size - 16)) 16
                  (mkState (generator st) d1 (trace st ++ complete_blocks vectorized size)))
      as Hfill.
    rewrite Z2Nat.id in Hfill by lia. change (Z.of_nat 16) with 16 in Hfill.
    cbn [generator data trace] in Hfill.
    pose proof (draws_length
      (λ _ : Z, uniform_real_distribution scalar_t (fconst 0) (fconst 1)) (irange 16)
      (generator st)) as Hl.
    destruct (draws (λ _ : Z, uniform_real_distribution scalar_t (fconst 0) (fconst 1))
                (irange 16) (generator st)) as [xs g1].
    change (length (irange 16)) with 16%nat in Hl. simpl in Hl.
    erewrite bind_ok by (apply Hfill; lia).
    edestruct (Hblock (size - 16) (length (data st))) as (d2 & Hd2 & Hrun2);
      [lia|lia| |].
    2:{ exists d2. split; [done|]. rewrite Hrun2. simpl.
        unfold complete_blocks. by rewrite <- !app_assoc. }
    simpl. rewrite !length_app, length_take, length_drop, length_fmap, Hl. lia.
Qed.

(** The first pass overwrites the whole buffer: what it leaves does not
    depend on what the buffer held. *)
Lemma first_pass_run scalar_t elem_t size st :
  Z.of_nat (length (data st)) = size →
  fill_uniform scalar_t elem_t 0 size st =
    let '(xs, g') := uniform_pass scalar_t size (generator st) in
    (mkState g' ((λ x, SReal (fround elem_t x)) <$> xs)
       (trace st ++ first_pass scalar_t size), Ok tt).
Proof.
  intros <-.
  pose proof (fill_uniform_run scalar_t elem_t 0 (length (data st)) st) as Hrun.
  change (Z.of_nat 0) with 0 in Hrun. rewrite Hrun by done.
  unfold uniform_pass, first_pass.
  destruct (draws _ _ (generator st)) as [xs g']. simpl.
  rewrite drop_all. by rewrite app_nil_r.
Qed.

Lemma uniform_pass_length T size g :
  0 ≤ size → Z.of_nat (length (uniform_pass T size g).1) = size.
Proof.
  intros Hsize. unfold uniform_pass, irange. rewrite draws_length, length_seqZ. lia.
Qed.

Lemma normal_fill_run scalar_t self mean std st :
  16 ≤ numel self → length (data st) = length (storage self) →
  ∃ d', length d' = length (storage self) ∧
    normal_fill scalar_t self mean std st =
      (mkState (after_bulk_fill scalar_t (numel self) (generator st)) d'
         (trace st ++ bulk_trace r_normal_fill false scalar_t (numel self)), Ok tt).
Proof.
  intros Hsize Hlen. unfold normal_fill, after_bulk_fill.
  erewrite bind_ok by reflexivity.
  set (st1 := mkState _ _ _).
  pose proof (first_pass_run scalar_t scalar_t (numel self) st1) as Hfp.
  pose proof (uniform_pass_length scalar_t (numel self) (generator st)) as Hl.
  cbn [generator data trace st1] in Hfp.
  destruct (uniform_pass scalar_t (numel self) (generator st)) as [xs g1].
  erewrite bind_ok by (apply Hfp; unfold numel; by rewrite Hlen).
  edestruct (blocks_and_tail_run (λ i, normal_fill_16 scalar_t i mean std) false
               scalar_t scalar_t (numel self)) as (d' & Hd' & Hrun);
    [intros; by apply normal_fill_16_run|done| |].
  2:{ exists d'. split; [|rewrite Hrun; unfold bulk_trace; cbn [generator data trace snd];
                          by rewrite <- !app_assoc].
      rewrite Hd'. cbn [data]. rewrite length_fmap. unfold numel in Hl. simpl in Hl. lia. }
  cbn [data]. rewrite length_fmap. simpl in Hl. lia.
Qed.

Lemma normal_fill_vectorize_run scalar_t self mean std st :
  16 ≤ numel self → length (data st) = length (storage self) →
  ∃ d', length d' = length (storage self) ∧
    normal_fill_vectorize scalar_t self mean std st =
      (mkState (after_bulk_fill scalar_t (numel self) (generator st)) d'
         (trace st ++ bulk_trace r_normal_fill_vectorize (bool_decide (Vec_size = 8))
                        scalar_t (numel self)), Ok tt).
Proof.
  intros Hsize Hlen. unfold normal_fill_vectorize, after_bulk_fill.
  erewrite bind_ok by reflexivity.
  set (st1 := mkState _ _ _).
  pose proof (first_pass_run scalar_t kFloat (numel self) st1) as Hfp.
  pose proof (uniform_pass_length scalar_t (numel self) (generator st)) as Hl.
  cbn [generator data trace st1] in Hfp.
  destruct (uniform_pass scalar_t (numel self) (generator st)) as [xs g1].
  erewrite bind_ok by (apply Hfp; unfold numel; by rewrite Hlen).
  edestruct (blocks_and_tail_run
               (λ i, if bool_decide (Vec_size = 8)
                     then normal_fill_16_vectorize i (Vec_splat (fmul (fconst 2) fpi))
                            (Vec_splat (fconst 1)) (Vec_splat (fconst (-2)))
                            (Vec_splat mean) (Vec_splat std)
                     else normal_fill_16 scalar_t i mean std)
               (bool_decide (Vec_size = 8))
               scalar_t kFloat (numel self)) as (d' & Hd' & Hrun); [|done| |].
  { intros off n st' Hoff Hend Hlen'. case_bool_decide as Hvec.
    - apply normal_fill_16_vectorize_run; try done;
        unfold Vec_splat; rewrite length_replicate, Hvec; done.
    - by apply normal_fill_16_run. }
  2:{ exists d'. split; [|rewrite Hrun; unfold bulk_trace; cbn [generator data trace snd];
                          by rewrite <- !app_assoc].
      rewrite Hd'. cbn [data]. rewrite length_fmap. unfold numel in Hl. simpl in Hl. lia. }
  cbn [data]. rewrite length_fmap. simpl in Hl. lia.
Qed.

(** *** Dispatch *)

Lemma bind_ret {A} (k : unit → M A) st : (mret tt ≫= k) st = k tt st.
Proof. done. Qed.

Lemma AT_DISPATCH_in {A} types t name (body : ScalarType → M A) :
  t ∈ types → AT_DISPATCH types t name body = body t.
Proof. intros Hin. unfold AT_DISPATCH. by rewrite bool_decide_true. Qed.

Lemma AT_DISPATCH_notin {A} types t name (body : ScalarType → M A) st :
  t ∉ types → AT_DISPATCH types t name body st = (st, Throw (NotImplemented name t)).
Proof. intros Hin. unfold AT_DISPATCH. by rewrite bool_decide_false. Qed.

(** *** Exponential *)

(** C3. The exponential kernel on an output whose element type is not a
    floating-point type fails its type check at once: the generator is the
    one given, the output holds what it held, nothing was drawn or assigned. *)
Theorem exponential_kernel_rejects_non_floating iter lambda g :
  isFloatingType (dtype iter) = false →
  exponential_kernel iter lambda (enter iter g) =
    (mkState g (storage iter) [],
     Throw (CheckFailed
       "Exponential distribution is a continuous probability distribution. dtype must be a floating point but you specified ")).
Proof.
  intros Hty. unfold exponential_kernel. rewrite Hty.
  reflexivity.
Qed.

(** *** Random over the full 64-bit range *)

(** C6. The full-range kernel fills the output exactly for int64, double,
    float and bfloat16 outputs; for the other integer types it fails its
    check, for any remaining type the dispatch fails, and in both cases the
    generator and the output are left as they were. *)
Theorem random_full_64_bits_range_kernel_types iter g :
  let r := random_full_64_bits_range_kernel iter (enter iter g) in
  (r.2 = Ok tt ↔ dtype iter ∈ [kLong; kDouble; kFloat; kBFloat16]) ∧
  (dtype iter ∈ [kLong; kDouble; kFloat; kBFloat16] →
     r = serial_fill uniform_int_full_range (dtype iter)
           (λ _, uniform_int_full_range_distribution (dtype iter)) id (numel iter) g) ∧
  (dtype iter ∈ [kByte; kChar; kShort; kInt] →
     r = (mkState g (storage iter) [],
          Throw (CheckFailed
            "random_full_64_bits_range_kernel_cpu handles only int64, double, float and bfloat16"))) ∧
  (dtype iter ∉ kBFloat16 :: ALL_TYPES →
     r = (mkState g (storage iter) [],
          Throw (NotImplemented "random_full_64_bits_range_kernel_cpu" (dtype iter)))).
Proof.
  pose proof (cpu_serial_kernel_enter_id iter uniform_int_full_range (dtype iter)
                (uniform_int_full_range_distribution (dtype iter)) g) as Hrun.
  assert (Hok : (serial_fill uniform_int_full_range (dtype iter)
                   (λ _ : Z, uniform_int_full_range_distribution (dtype iter)) id
                   (numel iter) g).2 = Ok tt).
  { unfold serial_fill. by destruct (draws _ _ g). }
  revert Hrun Hok. simpl.
  generalize (serial_fill uniform_int_full_range (dtype iter)
                (λ _ : Z, uniform_int_full_range_distribution (dtype iter)) id (numel iter) g).
  unfold random_full_64_bits_range_kernel, AT_DISPATCH_ALL_TYPES_AND, AT_DISPATCH.
  intros r0. destruct (dtype iter) eqn:Ety; simpl; intros Hrun Hok;
    (split_and!; [split|..]; intros Hin; first
      [ type_in_list | done | congruence ]).
Qed.

(** *** Geometric *)

Lemma geometric_kernel_run iter p g :
  dtype iter ∈ [kByte; kChar; kShort; kInt; kLong; kFloat; kDouble; kHalf; kBFloat16] →
  geometric_kernel iter p (enter iter g) =
    serial_fill geometric kDouble (λ _, geometric_distribution kDouble p)
      (static_cast (dtype iter)) (numel iter) g.
Proof.
  intros Hin. rewrite <- cpu_serial_kernel_enter.
  unfold geometric_kernel, AT_DISPATCH_ALL_TYPES_AND2.
  destruct (dtype iter) eqn:Ety; first [ type_in_list | done ].
Qed.


(** *** Precision of the samplers *)

(** C5 (amended). On every element type they dispatch on, the cauchy,
    log-normal, exponential and geometric kernels draw each sample from the
    distribution instantiated at double with the parameters as given, and
    convert it to the element type last.  The uniform kernel converts its
    bounds to the element type first and draws from the uniform
    distribution instantiated at the element type. *)
Theorem samplers_precision iter g :
  (dtype iter ∈ [kDouble; kFloat; kHalf; kBFloat16] →
     (∀ median sigma,
        cauchy_kernel iter median sigma (enter iter g) =
        serial_fill cauchy kDouble (λ _, cauchy_distribution kDouble median sigma)
          (static_cast (dtype iter)) (numel iter) g) ∧
     (∀ mean std,
        log_normal_kernel iter mean std (enter iter g) =
        serial_fill lognormal kDouble (λ _, lognormal_distribution kDouble mean std)
          (static_cast (dtype iter)) (numel iter) g) ∧
     (∀ lambda,
        exponential_kernel iter lambda (enter iter g) =
        serial_fill exponential kDouble (λ _, exponential_distribution kDouble lambda)
          (static_cast (dtype iter)) (numel iter) g) ∧
     (∀ from_ to_,
        uniform_kernel iter from_ to_ (enter iter g) =
        serial_fill uniform_real (dtype iter)
          (λ _, uniform_real_distribution (dtype iter)
                  (fround (dtype iter) from_) (fround (dtype iter) to_))
          (static_cast (dtype iter)) (numel iter) g)) ∧
  (dtype iter ∈ [kByte; kChar; kShort; kInt; kLong; kFloat; kDouble; kHalf; kBFloat16] →
     ∀ p,
       geometric_kernel iter p (enter iter g) =
       serial_fill geometric kDouble (λ _, geometric_distribution kDouble p)
         (static_cast (dtype iter)) (numel iter) g).
Proof.
  split.
  - intros Hin. split_and!; intros;
      unfold cauchy_kernel, log_normal_kernel, exponential_kernel, uniform_kernel,
        AT_DISPATCH_FLOATING_TYPES_AND2;
      rewrite <- cpu_serial_kernel_enter;
      (destruct (dtype iter) eqn:Ety; first [ type_in_list | done ]).
  - intros Hin p. by apply geometric_kernel_run.
Qed.

(** *** Normal: the choice of the path *)

Lemma normal_kernel_bulk_run self mean std g :
  16 ≤ numel self → is_contiguous self = true →
  scalar_type self ∈ [kDouble; kFloat; kHalf; kBFloat16] →
  ∃ d', length d' = length (storage self) ∧
    normal_kernel self mean std (enter self g) =
      (mkState (after_bulk_fill (scalar_type self) (numel self) g) d'
         (bulk_trace (bulk_routine (scalar_type self)) (bulk_vectorized (scalar_type self))
            (scalar_type self) (numel self)), Ok tt).
Proof.
  intros Hsize Hcontig Hty. unfold normal_kernel, bulk_routine, bulk_vectorized.
  rewrite Hcontig, (bool_decide_true (16 ≤ numel self)) by done.
  rewrite !andb_true_r.
  destruct (decide (scalar_type self = kFloat)) as [Hfloat|Hfloat].
  - rewrite !(bool_decide_true _ Hfloat). simpl. rewrite Hfloat.
    by apply normal_fill_vectorize_run.
  - rewrite !(bool_decide_false _ Hfloat). simpl.
    unfold AT_DISPATCH_FLOATING_TYPES_AND2. rewrite AT_DISPATCH_in.
    + by apply normal_fill_run.
    + revert Hty. clear. destruct (scalar_type self); intros Hty; type_in_list.
Qed.

Lemma normal_kernel_serial_run self mean std g :
  ¬ (16 ≤ numel self ∧ is_contiguous self = true) →
  scalar_type self ∈ [kDouble; kFloat; kHalf; kBFloat16] →
  normal_kernel self mean std (enter self g) =
    serial_fill normal kDouble (λ _, normal_distribution kDouble mean std)
      (static_cast (scalar_type self)) (numel self) g.
Proof.
  intros Hnot Hty. rewrite <- cpu_serial_kernel_enter. unfold normal_kernel.
  assert (bool_decide (16 ≤ numel self) && is_contiguous self = false) as Hcond.
  { apply andb_false_iff. destruct (is_contiguous self).
    - left. apply bool_decide_false. intros ?. by apply Hnot.
    - by right. }
  rewrite <- andb_assoc, Hcond, andb_false_r.
  unfold AT_DISPATCH_FLOATING_TYPES_AND2. rewrite AT_DISPATCH_in.
  - done.
  - revert Hty. clear. destruct (scalar_type self); intros Hty; type_in_list.
Qed.

Lemma normal_kernel_reject self mean std g :
  scalar_type self ∉ [kDouble; kFloat; kHalf; kBFloat16] →
  normal_kernel self mean std (enter self g) =
    (mkState g (storage self) [],
     Throw (NotImplemented "normal_kernel_cpu" (scalar_type self))).
Proof.
  intros Hty. unfold normal_kernel.
  rewrite (bool_decide_false (scalar_type self = kFloat)).
  2:{ intros Hfloat. apply Hty. rewrite Hfloat. type_in_list. }
  simpl. unfold AT_DISPATCH_FLOATING_TYPES_AND2. rewrite AT_DISPATCH_notin; [done|].
  intros Hin. apply Hty. revert Hin. clear.
  destruct (scalar_type self); intros Hin; type_in_list.
Qed.

(** C4 (amended). The normal kernel enters the vectorized routine exactly
    when the output is of type float, contiguous and of 16 elements or
    more.  An output of type double, float, half or bfloat16 that fails one
    of the three conditions goes through the scalar bulk routine when it is
    contiguous with 16 elements or more, through the per-element iteration
    otherwise.  An output of any other element type is rejected by the
    dispatch and no routine is entered. *)
Theorem normal_kernel_paths self mean std g :
  let r := normal_kernel self mean std (enter self g) in
  (head (trace r.1) = Some (EvCall r_normal_fill_vectorize) ↔ vectorizable self) ∧
  (scalar_type self ∈ [kDouble; kFloat; kHalf; kBFloat16] → ¬ vectorizable self →
     head (trace r.1) =
       Some (EvCall (if bool_decide (16 ≤ numel self) && is_contiguous self
                     then r_normal_fill else r_cpu_serial_kernel))) ∧
  (scalar_type self ∉ [kDouble; kFloat; kHalf; kBFloat16] →
     r = (mkState g (storage self) [],
          Throw (NotImplemented "normal_kernel_cpu" (scalar_type self)))).
Proof.
  simpl. unfold vectorizable.
  destruct (decide (scalar_type self ∈ [kDouble; kFloat; kHalf; kBFloat16])) as [Hty|Hty].
  2:{ rewrite (normal_kernel_reject _ _ _ _ Hty). simpl. split_and!; [|done..].
      split; [done|]. intros [Hfloat _]. exfalso. apply Hty. rewrite Hfloat. type_in_list. }
  destruct (decide (16 ≤ numel self ∧ is_contiguous self = true)) as [[Hsize Hcontig]|Hbulk].
  - destruct (normal_kernel_bulk_run self mean std g Hsize Hcontig Hty) as (d' & _ & ->).
    rewrite Hcontig, (bool_decide_true (16 ≤ numel self)) by done.
    unfold bulk_routine. simpl. split_and!; [|by intros _ Hnot; case_bool_decide; tauto|done].
    case_bool_decide; split; try done. by intros [? _].
  - rewrite (normal_kernel_serial_run _ _ _ _ Hbulk Hty).
    unfold serial_fill. destruct (draws _ _ g) as [xs g']. simpl.
    split_and!; [split; [done|tauto]| |done].
    intros _ _. destruct (is_contiguous self); [|by rewrite andb_false_r].
    rewrite bool_decide_false; [done|]. intros ?. by apply Hbulk.
Qed.

(** *** Normal: what the log of a bulk fill holds *)

Lemma omap_bind {A B C} (f : B → option C) (k : A → list B) (l : list A) :
  omap f (l ≫= k) = l ≫= (λ x, omap f (k x)).
Proof.
  induction l as [|x l IH]; [done|]. by rewrite !bind_cons, omap_app, IH.
Qed.

Lemma bind_nil_const {A B} (l : list A) : l ≫= (λ _, @nil B) = [].
Proof. induction l as [|x l IH]; [done|]. by rewrite bind_cons, IH. Qed.

Lemma samples_of_sample_store d T l :
  samples_of (sample_store d T l) = replicate (length l) (d, T).
Proof.
  unfold samples_of, sample_store. rewrite omap_bind. simpl.
  induction l as [|i l IH]; [done|]. rewrite bind_cons. simpl. by rewrite IH.
Qed.

Lemma stores_of_sample_store d T l : stores_of (sample_store d T l) = l.
Proof.
  unfold stores_of, sample_store. rewrite omap_bind. simpl.
  induction l as [|i l IH]; [done|]. rewrite bind_cons. simpl. by rewrite IH.
Qed.

Lemma samples_of_block_trace v off : samples_of (block_trace v off) = [].
Proof.
  by destruct v.
Qed.

(** Either block routine assigns the 16 elements from [off] on, each once. *)
Lemma stores_of_block_trace v off : stores_of (block_trace v off) ≡ₚ seqZ off 16.
Proof.
  destruct v.
  - unfold stores_of, block_trace, seqZ. simpl.
    match goal with |- ?l ≡ₚ ?k => replace l with k; [done|] end.
    repeat (f_equal; try lia).
  - apply NoDup_Permutation; [|apply NoDup_seqZ|].
    + unfold stores_of, block_trace, seqZ. simpl.
      repeat (apply NoDup_cons; split;
              [rewrite ?elem_of_cons, elem_of_nil; lia|]).
      apply NoDup_nil_2.
    + intros i. rewrite elem_of_seqZ. unfold stores_of, block_trace, seqZ. simpl.
      rewrite ?elem_of_cons, elem_of_nil. lia.
Qed.

Lemma samples_of_complete_blocks v size : samples_of (complete_blocks v size) = [].
Proof.
  unfold samples_of, complete_blocks. rewrite omap_bind.
  erewrite list_bind_ext; [apply bind_nil_const| |done].
  intros off. apply samples_of_block_trace.
Qed.

Lemma stores_of_blocks v (c : nat) :
  stores_of (((λ k, 16 * k) <$> seqZ 0 (Z.of_nat c)) ≫= block_trace v)
    ≡ₚ seqZ 0 (16 * Z.of_nat c).
Proof.
  induction c as [|c IH]; [done|].
  rewrite seqZ_S, fmap_app, bind_app. unfold stores_of in *. rewrite omap_app, IH.
  simpl. rewrite app_nil_r. change (omap _ (block_trace v ?off)) with
    (stores_of (block_trace v off)). rewrite stores_of_block_trace.
  replace (16 * Z.of_nat (S c)) with (16 * Z.of_nat c + 16) by lia.
  rewrite seqZ_app by lia. by rewrite Z.add_0_l.
Qed.

Lemma stores_of_complete_blocks v size :
  0 ≤ size → stores_of (complete_blocks v size) ≡ₚ seqZ 0 (16 * (size / 16)).
Proof.
  intros Hsize. unfold complete_blocks, block_offsets.
  rewrite <- (Z2Nat.id (size / 16)) by (apply Z.div_pos; lia).
  apply stores_of_blocks.
Qed.

(** *** Bernoulli *)

Lemma cpu_serial_kernel_unary_enter {A} self p d T (dist : Scalar F → G → A * G)
    (c : A → Scalar F) g :
  (length (storage self) ≤ length (storage p))%nat →
  cpu_serial_kernel_unary self p (λ p_val, x ← sample d T (dist p_val); mret (c x))
    (enter self g) =
  serial_fill d T (λ i, dist (storage p !!! Z.to_nat i)) c (numel self) g.
Proof.
  intros Hlen. unfold cpu_serial_kernel_unary, serial_fill, irange, numel.
  erewrite bind_ok by reflexivity.
  erewrite for_each_ext.
  2:{ intros i st Hi%elem_of_seqZ.
      destruct (lookup_lt_is_Some_2 (storage p) (Z.to_nat i)) as [p_val Hp]; [lia|].
      rewrite Hp, <- (list_lookup_total_correct _ _ _ Hp). reflexivity. }
  pose proof (for_each_draws_into d T
    (λ i g, let '(x, g') := dist (storage p !!! Z.to_nat i) g in (c x, g'))
    (λ i, v ← (x ← sample d T (dist (storage p !!! Z.to_nat i)); mret (c x)); store i v)
    (length (storage self))) as Hrun.
  rewrite (Hrun (store_after_draw_at d T _ _
                   (λ i, sample_cast_draws_value d T (dist (storage p !!! Z.to_nat i)) c))
             0%nat) by (simpl; lia).
  simpl. rewrite (draws_fmap c (λ i, dist (storage p !!! Z.to_nat i))).
  pose proof (draws_length (λ i, dist (storage p !!! Z.to_nat i))
                (seqZ 0 (Z.of_nat (length (storage self)))) g) as Hl.
  destruct (draws _ _ g) as [xs g']. simpl in Hl. rewrite length_seqZ, Nat2Z.id in Hl.
  rewrite drop_ge by lia. by rewrite app_nil_r.
Qed.

(** C9. On an output of a dispatched element type and a probability tensor
    broadcast to as many elements, every element of the output is the
    conversion of one Bernoulli sample drawn for the probability at the same
    position: from the distribution instantiated at double when the
    probabilities are doubles, at float (the probability converted to
    float) when they are of another floating type.  The log shows one draw
    before each assignment and nothing else. *)
Theorem bernoulli_kernel_precision self p_ p g :
  p = expand_inplace (sizes self) p_ →
  scalar_type self ∈ kBool :: kBFloat16 :: kHalf :: ALL_TYPES →
  length (storage p) = length (storage self) →
  (scalar_type p = kDouble →
     bernoulli_kernel self p_ (enter self g) =
       serial_fill bernoulli kDouble
         (λ i, bernoulli_distribution kDouble (as_real (storage p !!! Z.to_nat i)))
         (static_cast (scalar_type self)) (numel self) g) ∧
  (scalar_type p ∈ [kFloat; kHalf; kBFloat16] →
     bernoulli_kernel self p_ (enter self g) =
       serial_fill bernoulli kFloat
         (λ i, bernoulli_distribution kFloat
                 (fround kFloat (as_real (storage p !!! Z.to_nat i))))
         (static_cast (scalar_type self)) (numel self) g) ∧
  (∀ T, samples_of (sample_store bernoulli T (irange (numel self)))
        = replicate (length (storage self)) (bernoulli, T)).
Proof.
  intros Hexp Hself Hlen. split_and!.
  - intros Hp. unfold bernoulli_kernel, AT_DISPATCH_ALL_TYPES_AND3.
    rewrite AT_DISPATCH_in by done. rewrite <- Hexp. rewrite bool_decide_true by done.
    rewrite (cpu_serial_kernel_unary_enter self p bernoulli kDouble
               (λ p_val, bernoulli_distribution kDouble (as_real p_val))) by lia.
    done.
  - intros Hp. unfold bernoulli_kernel, AT_DISPATCH_ALL_TYPES_AND3.
    rewrite AT_DISPATCH_in by done. rewrite <- Hexp.
    rewrite bool_decide_false by (intros Hd; rewrite Hd in Hp; type_in_list).
    unfold AT_DISPATCH_FLOATING_TYPES_AND2. rewrite AT_DISPATCH_in.
    + rewrite (cpu_serial_kernel_unary_enter self p bernoulli kFloat
               (λ p_val, bernoulli_distribution kFloat (fround kFloat (as_real p_val))))
        by lia.
      done.
    + revert Hp. clear. destruct (scalar_type p); intros Hp; type_in_list.
  - intros T. rewrite samples_of_sample_store. unfold irange, numel.
    by rewrite length_seqZ, Nat2Z.id.
Qed.

(** *** Random in a range *)

Lemma draws_Forall {I A} (P : A → Prop) (dist : I → G → A * G) l g :
  (∀ i g, P (dist i g).1) → Forall P (draws dist l g).1.
Proof.
  intros HP. revert g. induction l as [|i l IH]; intros g; simpl; [done|].
  pose proof (HP i g) as Hx. destruct (dist i g) as [x g1].
  specialize (IH g1). destruct (draws dist l g1) as [xs g2]. by constructor.
Qed.

Lemma offset_plus_base_bounds val range base :
  0 < range → - 2 ^ 63 ≤ base → base + range ≤ 2 ^ 63 →
  base ≤ offset_plus_base val range base < base + range.
Proof.
  intros Hrange Hlo Hhi. unfold offset_plus_base, wrap_signed.
  pose proof (Z.mod_pos_bound val range Hrange) as Hoff.
  generalize dependent (val mod range). intros off Hoff.
  change (2 ^ (64 - 1)) with 9223372036854775808.
  change (2 ^ 63) with 9223372036854775808 in *.
  change (2 ^ 64) with 18446744073709551616.
  Z.div_mod_to_equations. lia.
Qed.

Lemma representable_between T a b v :
  representable T a → representable T b → a ≤ v ≤ b → representable T v.
Proof. unfold representable. destruct (int_range T) as [[lo hi]|]; [lia|done]. Qed.

Lemma static_cast_int64_representable T v :
  representable T v → static_cast_int64 T v = SInt v.
Proof.
  unfold representable, static_cast_int64, wrap_signed.
  destruct T; simpl; try done; intros Hv; f_equal.
  - apply Z.mod_small. lia.
  - rewrite Z.mod_small; lia.
  - rewrite Z.mod_small; lia.
  - rewrite Z.mod_small; lia.
  - rewrite Z.mod_small; lia.
  - case_bool_decide; lia.
Qed.

(** C2. For a range of at least 1 with [base + range - 1] within the signed
    64-bit integers, the bounded kernel fills every element of an output of
    a dispatched type with the conversion to that type of a 64-bit integer
    [v] with [base <= v < base + range]; when [base] and [base + range - 1]
    are values of an integral element type (bool included) the elements are
    these integers themselves, and for [range = 1] each is [base].  For
    [range = 0] nothing is drawn and no element is assigned. *)
Theorem random_from_to_kernel_bounds iter range base g :
  0 ≤ range < 2 ^ 64 → - 2 ^ 63 ≤ base → base + range ≤ 2 ^ 63 →
  dtype iter ∈ kBool :: kHalf :: kBFloat16 :: ALL_TYPES →
  let r := random_from_to_kernel iter range base (enter iter g) in
  (range = 0 →
     r.1 = mkState g (storage iter) [EvCall r_cpu_serial_kernel]) ∧
  (0 < range →
     ∃ vs g',
       r = (mkState g' (static_cast_int64 (dtype iter) <$> vs)
              (EvCall r_cpu_serial_kernel
                 :: sample_store uniform_int_from_to (dtype iter) (irange (numel iter))),
            Ok tt) ∧
       length vs = length (storage iter) ∧
       Forall (λ v, base ≤ v < base + range) vs ∧
       (representable (dtype iter) base → representable (dtype iter) (base + range - 1) →
          static_cast_int64 (dtype iter) <$> vs = SInt <$> vs) ∧
       (range = 1 → vs = replicate (length (storage iter)) base)).
Proof.
  intros Hrange Hlo Hhi Hty. simpl.
  unfold random_from_to_kernel, AT_DISPATCH_ALL_TYPES_AND3.
  rewrite AT_DISPATCH_in by done. split.
  - intros ->. unfold cpu_serial_kernel, numel, irange.
    erewrite bind_ok by reflexivity. unfold enter. simpl.
    destruct (storage iter) as [|x l] eqn:Est; [done|].
    rewrite seqZ_cons by (simpl; lia). simpl.
    unfold mbind, M_bind, sample_partial, uniform_int_from_to_distribution. simpl.
    done.
  - intros Hpos.
    pose (pre := λ g0 : G, let '(val, g') := integer_draw (dtype iter) range g0 in
                           (offset_plus_base val range base, g')).
    assert (Hop : draws_value uniform_int_from_to (dtype iter)
              (λ g0, let '(v, g') := pre g0 in (static_cast_int64 (dtype iter) v, g'))
              (sample_partial uniform_int_from_to (dtype iter)
                 (uniform_int_from_to_distribution (dtype iter) range base))).
    { intros st. unfold sample_partial, uniform_int_from_to_distribution, pre.
      rewrite bool_decide_false by lia.
      by destruct (integer_draw (dtype iter) range (generator st)). }
    rewrite (cpu_serial_kernel_run iter _ _ _ _ (enter iter g) Hop eq_refl).
    rewrite (draws_fmap (static_cast_int64 (dtype iter)) (λ _ : Z, pre)).
    pose proof (draws_length (λ _ : Z, pre) (irange (numel iter)) g) as Hl.
    pose proof (draws_Forall (λ v, base ≤ v < base + range) (λ _ : Z, pre)
                  (irange (numel iter)) g) as Hall.
    simpl. destruct (draws (λ _ : Z, pre) (irange (numel iter)) g) as [vs g'].
    simpl in Hl, Hall. unfold irange, numel in Hl. rewrite length_seqZ, Nat2Z.id in Hl.
    assert (Hvs : Forall (λ v, base ≤ v < base + range) vs).
    { apply Hall. intros _ g0. unfold pre.
      destruct (integer_draw (dtype iter) range g0) as [val g1]. simpl.
      by apply offset_plus_base_bounds. }
    exists vs, g'. split_and!; [done..| |].
    + intros Hb1 Hb2. apply list_fmap_ext. intros i v Hv.
      apply static_cast_int64_representable.
      apply (representable_between _ base (base + range - 1)); [done..|].
      rewrite Forall_lookup in Hvs. specialize (Hvs _ _ Hv). simpl in Hvs. lia.
    + intros ->. rewrite <- Hl. symmetry. apply replicate_as_Forall. split; [done|].
      eapply Forall_impl; [exact Hvs|]. simpl. intros v Hv. lia.
Qed.

(** *** Determinism *)




















End Properties.

(** ** Further properties *)

Section MoreProperties.
Context {G F : Type} `{!RNG G, !Arith F, !VecUnit F, !Distributions G F, !Broadcast F}.

Implicit Types (st : @State G F) (g : G) (self iter : Tensor F).
Local Abbreviation M := (@M G F).

(** *** Element access inside a block *)

Lemma load_at (pre l : list (Scalar F)) i (k : nat) v st :
  data st = pre ++ l → i = Z.of_nat (length pre) + Z.of_nat k → l !! k = Some v →
  load i st = (st, Ok v).
Proof.
  intros Hd -> Hk. unfold load. rewrite bool_decide_true by lia.
  rewrite Hd. replace (Z.to_nat _) with (length pre + k)%nat by lia.
  by rewrite lookup_app_r, Nat.add_comm, Nat.add_sub, Hk by lia.
Qed.

Lemma store_at (pre l : list (Scalar F)) i (k : nat) v st :
  data st = pre ++ l → i = Z.of_nat (length pre) + Z.of_nat k → (k < length l)%nat →
  store i v st =
    (mkState (generator st) (pre ++ <[k := v]> l) (trace st ++ [EvStore i]), Ok tt).
Proof.
  intros Hd -> Hk. rewrite store_ok by (rewrite Hd, length_app; lia).
  rewrite Hd. replace (Z.to_nat _) with (length pre + k)%nat by lia.
  by rewrite insert_app_r.
Qed.

(** A buffer with 16 elements from [n] on is a prefix of length [n], the 16
    elements and the rest. *)
Lemma block_at (d : list (Scalar F)) (n : nat) :
  (n + 16 ≤ length d)%nat →
  ∃ pre blk post, d = pre ++ blk ++ post ∧ length pre = n ∧ length blk = 16%nat.
Proof.
  intros Hlen. exists (take n d), (take 16 (drop n d)), (drop (n + 16) d).
  split_and!.
  - rewrite <- (take_drop n d) at 1. f_equal.
    rewrite <- (take_drop 16 (drop n d)) at 1. f_equal. by rewrite drop_drop.
  - rewrite length_take. lia.
  - rewrite length_take, length_drop. lia.
Qed.

(** *** The scalar block *)

(** One iteration of the loop of [normal_fill_16]: the pair at [j] and
    [j + 8] of the block is replaced by its Box-Muller pair. *)
Lemma normal_fill_16_step scalar_t off mean std (pre l : list (Scalar F)) (j : nat) a b st :
  data st = pre ++ l → off = Z.of_nat (length pre) →
  l !! j = Some a → l !! (j + 8)%nat = Some b →
  (d1 ← load (off + Z.of_nat j);
   let u1 := fround scalar_t (fsub (fconst 1) (as_real d1)) in
   d2 ← load (off + (Z.of_nat j + 8));
   let u2 := as_real d2 in
   let radius := fround scalar_t (fsqrt (fmul (fconst (-2)) (flog u1))) in
   let theta := fround scalar_t (fmul (fmul (fconst 2) fpi) u2) in
   store (off + Z.of_nat j)
     (SReal (fround scalar_t (fadd (fmul (fmul radius (fcos theta)) std) mean))) ;;
   store (off + (Z.of_nat j + 8))
     (SReal (fround scalar_t (fadd (fmul (fmul radius (fsin theta)) std) mean)))) st =
  (mkState (generator st)
     (pre ++ <[(j + 8)%nat := SReal (box_muller scalar_t mean std (as_real a) (as_real b)).2]>
               (<[j := SReal (box_muller scalar_t mean std (as_real a) (as_real b)).1]> l))
     (trace st ++ [EvStore (off + Z.of_nat j); EvStore (off + (Z.of_nat j + 8))]),
   Ok tt).
Proof.
  intros Hd -> Ha Hb.
  pose proof (lookup_lt_Some _ _ _ Ha) as Hja.
  pose proof (lookup_lt_Some _ _ _ Hb) as Hjb.
  erewrite bind_ok by (by eapply (load_at pre l _ j)).
  erewrite bind_ok by (eapply (load_at pre l _ (j + 8)); [done|lia|done]).
  erewrite bind_ok by (by eapply (store_at pre l _ j)).
  erewrite (store_at pre _ _ (j + 8)); [|reflexivity|simpl; lia|by rewrite length_insert].
  simpl. by rewrite <- app_assoc.
Qed.

(** The scalar block routine replaces the block at [off] by its transform. *)
Lemma normal_fill_16_fun scalar_t off mean std st :
  0 ≤ off → off + 16 ≤ Z.of_nat (length (data st)) →
  normal_fill_16 scalar_t off mean std st =
    (mkState (generator st)
       (with_block (transform_16 scalar_t mean std) (Z.to_nat off) (data st))
       (trace st ++ block_trace false off), Ok tt).
Proof.
  intros Hoff Hend.
  destruct (block_at (data st) (Z.to_nat off)) as (pre & blk & post & Hd & Hpre & Hblk);
    [lia|].
  do 16 (destruct blk as [|? blk]; [discriminate Hblk|]).
  destruct blk; [|discriminate Hblk]. clear Hblk.
  destruct st as [g0 d0 tr0]. simpl in Hd, Hend |- *. subst d0.
  assert (Hoff' : off = Z.of_nat (length pre)) by lia.
  unfold normal_fill_16. erewrite bind_ok by reflexivity.
  change (irange 8) with [Z.of_nat 0; Z.of_nat 1; Z.of_nat 2; Z.of_nat 3;
                          Z.of_nat 4; Z.of_nat 5; Z.of_nat 6; Z.of_nat 7].
  cbn [for_each generator data trace].
  do 8 (erewrite bind_ok
          by (eapply (normal_fill_16_step scalar_t off mean std pre);
              [reflexivity|exact Hoff'|reflexivity|reflexivity]);
        cbn [generator data trace]).
  unfold mret, M_ret, with_block, transform_16, transform_pairs.
  rewrite <- Hpre, take_app_length, drop_app_length.
  rewrite drop_app_add'; [|done]. rewrite <- !app_assoc.
  reflexivity.
Qed.

(** *** The vector block *)

Lemma load_lanes_at (pre l : list (Scalar F)) off (n : nat) :
  ∀ (k : nat) st,
    data st = pre ++ l → off = Z.of_nat (length pre) → (k + n ≤ length l)%nat →
    load_lanes (seqZ (off + Z.of_nat k) (Z.of_nat n)) st =
      (st, Ok (as_real <$> take n (drop k l))).
Proof.
  induction n as [|n IH]; intros k st Hd Hoff Hlen; [done|].
  rewrite seqZ_cons by lia.
  replace (Z.pred (Z.of_nat (S n))) with (Z.of_nat n) by lia.
  replace (Z.succ (off + Z.of_nat k)) with (off + Z.of_nat (S k)) by lia.
  destruct (lookup_lt_is_Some_2 l k) as [x Hx]; [lia|].
  cbn [load_lanes].
  erewrite bind_ok by (eapply (load_at pre l _ k); [done|lia|done]).
  erewrite bind_ok by (apply IH; [done|done|lia]).
  unfold mret, M_ret. do 2 f_equal.
  rewrite (drop_S _ _ _ Hx). done.
Qed.

Lemma Vec_store_at (pre : list (Scalar F)) off (v : Vec) :
  ∀ (k : nat) (l : list (Scalar F)) st,
    data st = pre ++ l → off = Z.of_nat (length pre) → (k + length v ≤ length l)%nat →
    Vec_store v (off + Z.of_nat k) st =
      (mkState (generator st)
         (pre ++ take k l ++ (SReal <$> v) ++ drop (k + length v) l)
         (trace st ++ (EvStore <$> seqZ (off + Z.of_nat k) (Z.of_nat (length v)))), Ok tt).
Proof.
  unfold Vec_store. induction v as [|x v IH]; intros k l st Hd Hoff Hlen.
  - simpl. unfold mret, M_ret. rewrite Nat.add_0_r, take_drop, app_nil_r, <- Hd.
    by destruct st.
  - rewrite seqZ_cons by (simpl; lia).
    replace (Z.pred (Z.of_nat (length (x :: v)))) with (Z.of_nat (length v))
      by (simpl; lia).
    replace (Z.succ (off + Z.of_nat k)) with (off + Z.of_nat (S k)) by lia.
    simpl in Hlen. cbn [zip zip_with for_each fst snd].
    erewrite bind_ok by (eapply (store_at pre l _ k); [done|lia|lia]).
    rewrite (IH (S k) (<[k := SReal x]> l)); [|done|done|rewrite length_insert; lia].
    cbn [generator data trace]. f_equal. f_equal.
    + f_equal. destruct (lookup_lt_is_Some_2 l k) as [y Hy]; [lia|].
      erewrite take_S_r by (apply list_lookup_insert_eq; lia).
      rewrite take_insert_ge by lia. rewrite drop_insert_lt by lia.
      rewrite <- app_assoc. simpl. by rewrite Nat.add_succ_r.
    + by rewrite <- app_assoc.
Qed.

(** So does the vector block routine with 8 lanes, called as the vectorized
    fill calls it. *)
Lemma normal_fill_16_vectorize_fun off mean std st :
  Vec_size = 8 → 0 ≤ off → off + 16 ≤ Z.of_nat (length (data st)) →
  normal_fill_16_vectorize off (Vec_splat (fmul (fconst 2) fpi)) (Vec_splat (fconst 1))
    (Vec_splat (fconst (-2))) (Vec_splat mean) (Vec_splat std) st =
    (mkState (generator st)
       (with_block (transform_16_vectorize mean std) (Z.to_nat off) (data st))
       (trace st ++ block_trace true off), Ok tt).
Proof.
  intros Hvec Hoff Hend.
  destruct (block_at (data st) (Z.to_nat off)) as (pre & blk & post & Hd & Hpre & Hblk);
    [lia|].
  do 16 (destruct blk as [|? blk]; [discriminate Hblk|]).
  destruct blk; [|discriminate Hblk]. clear Hblk.
  destruct st as [g0 d0 tr0]. simpl in Hd, Hend |- *. subst d0.
  assert (Hoff' : off = Z.of_nat (length pre)) by lia.
  unfold normal_fill_16_vectorize, Vec_loadu, Vec_splat. rewrite Hvec.
  erewrite bind_ok by reflexivity.
  match goal with |- context [pre ++ ?l] => set (L := l) in * end.
  assert (HL : length L = (16 + length post)%nat) by done.
  set (st1 := mkState g0 (pre ++ L) (tr0 ++ [EvCall (r_normal_fill_16_vectorize off)])).
  pose proof (load_lanes_at pre L off 8 0 st1 eq_refl Hoff' ltac:(lia)) as H1.
  pose proof (load_lanes_at pre L off 8 8 st1 eq_refl Hoff' ltac:(lia)) as H2.
  rewrite Z.add_0_r in H1. change (Z.of_nat 8) with 8 in H1, H2.
  rewrite (bind_ok _ _ _ _ _ H1), (bind_ok _ _ _ _ _ H2).
  match goal with
  | |- (Vec_store ?v off ≫= _) _ = _ =>
      pose proof (Vec_store_at pre off v 0 L st1 eq_refl Hoff') as H3;
      assert (Hv : length v = 8%nat) by done
  end.
  rewrite Hv, Z.add_0_r in H3. rewrite (bind_ok _ _ _ _ _ (H3 ltac:(lia))).
  change (Z.of_nat 8) with 8.
  match goal with
  | |- Vec_store ?v _ ?s = _ =>
      pose proof (Vec_store_at pre off v 8 _ s eq_refl Hoff') as H4;
      assert (Hv' : length v = 8%nat) by done
  end.
  rewrite Hv' in H4. change (Z.of_nat 8) with 8 in H4.
  rewrite H4 by (rewrite !length_app, length_take, length_fmap, length_drop; lia).
  unfold with_block, transform_16_vectorize, transform_pairs.
  rewrite <- Hpre, take_app_length, drop_app_length, (drop_app_add pre L 16).
  cbn [generator data trace st1]. rewrite <- !app_assoc.
  reflexivity.
Qed.

(** *** The blocks, element by element *)

Lemma with_block_pairs (pair : F → F → F * F) (n : nat) (d : list (Scalar F)) :
  (n + 16 ≤ length d)%nat →
  length (with_block (transform_pairs pair) n d) = length d ∧
  (∀ i, (i < n ∨ n + 16 ≤ i)%nat →
     with_block (transform_pairs pair) n d !! i = d !! i) ∧
  (∀ j a b, (j < 8)%nat → d !! (n + j)%nat = Some a → d !! (n + j + 8)%nat = Some b →
     with_block (transform_pairs pair) n d !! (n + j)%nat
       = Some (SReal (pair (as_real a) (as_real b)).1) ∧
     with_block (transform_pairs pair) n d !! (n + j + 8)%nat
       = Some (SReal (pair (as_real a) (as_real b)).2)).
Proof.
  intros Hlen.
  destruct (block_at d n) as (pre & blk & post & -> & <- & Hblk); [lia|].
  do 16 (destruct blk as [|? blk]; [discriminate Hblk|]).
  destruct blk; [|discriminate Hblk]. clear Hblk Hlen.
  unfold with_block, transform_pairs.
  rewrite take_app_length, drop_app_length, (drop_app_add pre _ 16).
  cbn [take drop fmap list_fmap zip_with app as_real].
  split_and!.
  - rewrite !length_app. done.
  - intros i [Hi|Hi].
    + by rewrite !lookup_app_l by done.
    + rewrite !lookup_app_r by lia.
      replace (i - length pre)%nat with (16 + (i - length pre - 16))%nat by lia.
      done.
  - intros j a b Hj Ha Hb.
    rewrite lookup_app_r in Ha, Hb |- * by lia.
    rewrite (lookup_app_r pre) by lia.
    replace (length pre + j - length pre)%nat with j in * by lia.
    replace (length pre + j + 8 - length pre)%nat with (j + 8)%nat in * by lia.
    do 8 (destruct j as [|j]; [by simplify_eq/=|]). lia.
Qed.

(** X1. The scalar block routine on 16 elements inside the buffer returns
    with the generator untouched and the buffer changed in the block only:
    for each [j] below 8, element [off + j] holds the first and element
    [off + j + 8] the second component of the Box-Muller pair of the values
    these two elements held on entry. *)
Theorem normal_fill_16_pairs scalar_t off mean std st :
  0 ≤ off → off + 16 ≤ Z.of_nat (length (data st)) →
  ∃ d',
    normal_fill_16 scalar_t off mean std st =
      (mkState (generator st) d' (trace st ++ block_trace false off), Ok tt) ∧
    length d' = length (data st) ∧
    (∀ i, (i < Z.to_nat off ∨ Z.to_nat off + 16 ≤ i)%nat → d' !! i = data st !! i) ∧
    (∀ j a b, (j < 8)%nat →
       data st !! (Z.to_nat off + j)%nat = Some a →
       data st !! (Z.to_nat off + j + 8)%nat = Some b →
       d' !! (Z.to_nat off + j)%nat
         = Some (SReal (box_muller scalar_t mean std (as_real a) (as_real b)).1) ∧
       d' !! (Z.to_nat off + j + 8)%nat
         = Some (SReal (box_muller scalar_t mean std (as_real a) (as_real b)).2)).
Proof.
  intros Hoff Hend. eexists. split; [by apply normal_fill_16_fun|].
  apply (with_block_pairs (box_muller scalar_t mean std)). lia.
Qed.

(** X2. With 8 lanes, the vector block routine called as the vectorized
    fill calls it does the same with the pairs computed lane by lane in
    single precision: the pairing is that of the scalar routine (lane [j]
    of the lower half with lane [j] of the upper half), the generator and
    the elements outside the block are untouched. *)
Theorem normal_fill_16_vectorize_lanes off mean std st :
  Vec_size = 8 → 0 ≤ off → off + 16 ≤ Z.of_nat (length (data st)) →
  ∃ d',
    normal_fill_16_vectorize off (Vec_splat (fmul (fconst 2) fpi)) (Vec_splat (fconst 1))
      (Vec_splat (fconst (-2))) (Vec_splat mean) (Vec_splat std) st =
      (mkState (generator st) d' (trace st ++ block_trace true off), Ok tt) ∧
    length d' = length (data st) ∧
    (∀ i, (i < Z.to_nat off ∨ Z.to_nat off + 16 ≤ i)%nat → d' !! i = data st !! i) ∧
    (∀ j a b, (j < 8)%nat →
       data st !! (Z.to_nat off + j)%nat = Some a →
       data st !! (Z.to_nat off + j + 8)%nat = Some b →
       d' !! (Z.to_nat off + j)%nat
         = Some (SReal (box_muller_lane mean std (as_real a) (as_real b)).1) ∧
       d' !! (Z.to_nat off + j + 8)%nat
         = Some (SReal (box_muller_lane mean std (as_real a) (as_real b)).2)).
Proof.
  intros Hvec Hoff Hend. eexists. split; [by apply normal_fill_16_vectorize_fun|].
  apply (with_block_pairs (box_muller_lane mean std)). lia.
Qed.

(** *** The bulk fills as functions of the draws *)

Lemma transform_pairs_length (pair : F → F → F * F) (l : list (Scalar F)) :
  length l = 16%nat → length (transform_pairs pair l) = 16%nat.
Proof.
  intros Hl. unfold transform_pairs.
  rewrite length_app, !length_zip_with, !length_fmap, !length_take, length_drop. lia.
Qed.

Lemma transform_blocks_length (f : list (Scalar F) → list (Scalar F)) (c : nat) :
  (∀ l, length l = 16%nat → length (f l) = 16%nat) →
  ∀ d, (16 * c ≤ length d)%nat → length (transform_blocks f c d) = length d.
Proof.
  intros Hf. induction c as [|c IH]; intros d Hd; [done|]. simpl.
  rewrite length_app, Hf, IH by (rewrite ?length_take, ?length_drop; lia).
  rewrite length_drop. lia.
Qed.

(** The loop over the complete blocks from [b] on, for a block routine that
    replaces its block by [f] of it. *)
Lemma blocks_fun (block : Z → M unit) (f : list (Scalar F) → list (Scalar F)) vec :
  (∀ off st, 0 ≤ off → off + 16 ≤ Z.of_nat (length (data st)) →
     block off st =
       (mkState (generator st) (with_block f (Z.to_nat off) (data st))
          (trace st ++ block_trace vec off), Ok tt)) →
  (∀ l, length l = 16%nat → length (f l) = 16%nat) →
  ∀ (c b : nat) st, (b + 16 * c ≤ length (data st))%nat →
    for_each ((λ k, Z.of_nat b + 16 * k) <$> seqZ 0 (Z.of_nat c)) block st =
      (mkState (generator st)
         (take b (data st) ++ transform_blocks f c (drop b (data st)))
         (trace st ++ (((λ k, Z.of_nat b + 16 * k) <$> seqZ 0 (Z.of_nat c))
                         ≫= block_trace vec)), Ok tt).
Proof.
  intros Hblock Hf. induction c as [|c IH]; intros b st Hlen.
  - simpl. unfold mret, M_ret. rewrite take_drop, app_nil_r. by destruct st.
  - rewrite (seqZ_cons 0 (Z.of_nat (S c))) by lia.
    replace (Z.pred (Z.of_nat (S c))) with (Z.of_nat c) by lia.
    rewrite fmap_cons. replace (Z.of_nat b + 16 * 0) with (Z.of_nat b) by lia.
    rewrite <- (fmap_add_seqZ 1 0), <- list_fmap_compose.
    replace ((λ k, Z.of_nat b + 16 * k) ∘ Z.add 1 <$> seqZ 0 (Z.of_nat c))
      with ((λ k, Z.of_nat (b + 16) + 16 * k) <$> seqZ 0 (Z.of_nat c))
      by (apply list_fmap_ext; intros _ k _; simpl; lia).
    cbn [for_each]. erewrite bind_ok by (apply Hblock; lia).
    rewrite Nat2Z.id.
    assert (Hb1 : length (take b (data st)) = b) by (rewrite length_take; lia).
    assert (Hb2 : length (f (take 16 (drop b (data st)))) = 16%nat)
      by (apply Hf; rewrite length_take, length_drop; lia).
    rewrite IH.
    2:{ cbn [data]. unfold with_block.
        rewrite !length_app, Hb1, Hb2, length_drop. lia. }
    cbn [generator data trace]. unfold with_block. f_equal. f_equal.
    + rewrite app_assoc.
      rewrite take_app_length' by (rewrite length_app; lia).
      rewrite drop_app_length' by (rewrite length_app; lia).
      rewrite <- app_assoc. simpl. by rewrite drop_drop.
    + rewrite bind_cons. by rewrite <- app_assoc.
Qed.

(** What follows the emission of the routine's name in a bulk fill, for a
    block routine that replaces its block by [f] of it. *)
Lemma bulk_fun (block : Z → M unit) (f : list (Scalar F) → list (Scalar F)) vec
    scalar_t elem_t size st :
  (∀ off st, 0 ≤ off → off + 16 ≤ Z.of_nat (length (data st)) →
     block off st =
       (mkState (generator st) (with_block f (Z.to_nat off) (data st))
          (trace st ++ block_trace vec off), Ok tt)) →
  (∀ l, length l = 16%nat → length (f l) = 16%nat) →
  16 ≤ size → Z.of_nat (length (data st)) = size →
  (fill_uniform scalar_t elem_t 0 size ;;
   for_step_16 (S (Z.to_nat size)) 0 (size - 15) block ;;
   if bool_decide (Z.rem size 16 ≠ 0) then
     fill_uniform scalar_t elem_t (size - 16) 16 ;; block (size - 16)
   else mret tt) st =
  (mkState (after_bulk_fill scalar_t size (generator st))
     (bulk_data f scalar_t elem_t size (generator st))
     (trace st ++ first_pass scalar_t size ++ complete_blocks vec size
        ++ tail_block vec scalar_t size), Ok tt).
Proof.
  intros Hblock Hf Hsize Hlen. unfold after_bulk_fill, bulk_data.
  pose proof (first_pass_run scalar_t elem_t size st Hlen) as Hfp.
  pose proof (uniform_pass_length scalar_t size (generator st) ltac:(lia)) as Hl1.
  destruct (uniform_pass scalar_t size (generator st)) as [xs1 g1].
  cbn [fst snd] in *. rewrite (bind_ok _ _ _ _ _ Hfp).
  rewrite for_step_16_blocks by lia. unfold block_offsets.
  pose proof (Z.div_pos size 16 ltac:(lia) ltac:(lia)) as Hq.
  pose proof (Z.mul_div_le size 16 ltac:(lia)) as Hq'.
  set (d1 := (λ x, SReal (fround elem_t x)) <$> xs1).
  assert (Hd1 : Z.of_nat (length d1) = size) by (unfold d1; by rewrite length_fmap).
  pose proof (blocks_fun block f vec Hblock Hf (Z.to_nat (size / 16)) 0
                (mkState g1 d1 (trace st ++ first_pass scalar_t size))) as Hblocks.
  rewrite Z2Nat.id in Hblocks by done. cbn [generator data trace] in Hblocks.
  change (Z.of_nat 0) with 0 in Hblocks.
  erewrite bind_ok by (apply Hblocks; lia).
  rewrite take_0, drop_0, app_nil_l.
  set (d2 := transform_blocks f (Z.to_nat (size / 16)) d1).
  assert (Hd2 : length d2 = length d1)
    by (apply transform_blocks_length; [done|lia]).
  rewrite Z.rem_mod_nonneg by lia. unfold tail_block, complete_blocks, block_offsets.
  change ((λ k, 0 + 16 * k) <$> seqZ 0 (size / 16))
    with ((λ k, 16 * k) <$> seqZ 0 (size / 16)).
  destruct (decide (size mod 16 = 0)) as [Hrem|Hrem].
  - rewrite bool_decide_false by lia. rewrite !(bool_decide_true _ Hrem).
    unfold mret, M_ret. by rewrite app_nil_r, <- !app_assoc.
  - rewrite bool_decide_true by lia. rewrite !(bool_decide_false _ Hrem).
    pose proof (fill_uniform_run scalar_t elem_t (Z.to_nat (size - 16)) 16
                  (mkState g1 d2 ((trace st ++ first_pass scalar_t size)
                     ++ ((λ k, 16 * k) <$> seqZ 0 (size / 16)) ≫= block_trace vec)))
      as Hfill.
    rewrite Z2Nat.id in Hfill by lia. change (Z.of_nat 16) with 16 in Hfill.
    cbn [generator data trace] in Hfill.
    pose proof (uniform_pass_length scalar_t 16 g1 ltac:(lia)) as Hl2.
    unfold uniform_pass in Hl2 |- *.
    destruct (draws (λ _ : Z, uniform_real_distribution scalar_t (fconst 0) (fconst 1))
                (irange 16) g1) as [xs2 g2].
    cbn [fst snd] in *.
    erewrite bind_ok by (apply Hfill; lia).
    set (d3 := (λ x, SReal (fround elem_t x)) <$> xs2).
    assert (Hd3 : length d3 = 16%nat) by (unfold d3; rewrite length_fmap; lia).
    rewrite Hblock by (cbn [data];
      rewrite ?length_app, ?length_take, ?length_drop; lia).
    cbn [generator data trace]. unfold with_block.
    replace (Z.to_nat (size - 16) + 16)%nat with (length d2) by lia.
    rewrite drop_all, app_nil_r.
    assert (Ht : length (take (Z.to_nat (size - 16)) d2) = Z.to_nat (size - 16))
      by (rewrite length_take; lia).
    rewrite take_app_length' by done.
    rewrite drop_app_length' by done.
    rewrite (take_ge d3) by lia.
    rewrite drop_ge by (rewrite length_app; lia).
    rewrite app_nil_r. by rewrite <- !app_assoc.
Qed.

Lemma bulk_transform_length T mean std (l : list (Scalar F)) :
  length l = 16%nat → length (bulk_transform T mean std l) = 16%nat.
Proof.
  intros Hl. unfold bulk_transform, transform_16, transform_16_vectorize.
  repeat case_bool_decide; by apply transform_pairs_length.
Qed.

Lemma normal_kernel_bulk_fun self mean std g :
  16 ≤ numel self → is_contiguous self = true →
  scalar_type self ∈ [kDouble; kFloat; kHalf; kBFloat16] →
  normal_kernel self mean std (enter self g) =
    (mkState (after_bulk_fill (scalar_type self) (numel self) g)
       (bulk_data (bulk_transform (scalar_type self) mean std)
          (scalar_type self) (scalar_type self) (numel self) g)
       (bulk_trace (bulk_routine (scalar_type self)) (bulk_vectorized (scalar_type self))
          (scalar_type self) (numel self)), Ok tt).
Proof.
  intros Hsize Hcontig Hty.
  unfold normal_kernel, bulk_routine, bulk_vectorized, bulk_trace.
  rewrite Hcontig, (bool_decide_true (16 ≤ numel self)) by done.
  rewrite !andb_true_r.
  destruct (decide (scalar_type self = kFloat)) as [Hfloat|Hfloat].
  - rewrite !(bool_decide_true _ Hfloat). cbn [andb]. rewrite Hfloat.
    unfold normal_fill_vectorize. erewrite bind_ok by reflexivity.
    pose proof (bulk_fun
      (λ i, if bool_decide (Vec_size = 8)
            then normal_fill_16_vectorize i (Vec_splat (fmul (fconst 2) fpi))
                   (Vec_splat (fconst 1)) (Vec_splat (fconst (-2)))
                   (Vec_splat (fround kFloat mean)) (Vec_splat (fround kFloat std))
            else normal_fill_16 kFloat i (fround kFloat mean) (fround kFloat std))
      (bulk_transform kFloat mean std) (bool_decide (Vec_size = 8))
      kFloat kFloat (numel self)
      (mkState g (storage self) ([] ++ [EvCall r_normal_fill_vectorize]))) as Hrun.
    cbn beta in Hrun. unfold enter. cbn [generator data trace]. rewrite Hrun; [reflexivity|..].
    + intros off st Hoff Hend. unfold bulk_transform.
      rewrite (bool_decide_true (kFloat = kFloat)) by done.
      case_bool_decide.
      * by apply normal_fill_16_vectorize_fun.
      * by apply normal_fill_16_fun.
    + apply bulk_transform_length.
    + done.
    + done.
  - rewrite !(bool_decide_false _ Hfloat). cbn [andb].
    unfold AT_DISPATCH_FLOATING_TYPES_AND2. rewrite AT_DISPATCH_in.
    2:{ revert Hty. clear. destruct (scalar_type self); intros Hty; type_in_list. }
    unfold normal_fill. erewrite bind_ok by reflexivity.
    pose proof (bulk_fun
      (λ i, normal_fill_16 (scalar_type self) i (fround (scalar_type self) mean)
              (fround (scalar_type self) std))
      (bulk_transform (scalar_type self) mean std) false
      (scalar_type self) (scalar_type self) (numel self)
      (mkState g (storage self) ([] ++ [EvCall r_normal_fill]))) as Hrun.
    cbn beta in Hrun. unfold enter. cbn [generator data trace]. rewrite Hrun; [reflexivity|..].
    + intros off st Hoff Hend. unfold bulk_transform.
      rewrite (bool_decide_false (scalar_type self = kFloat)) by done.
      by apply normal_fill_16_fun.
    + apply bulk_transform_length.
    + done.
    + done.
Qed.

Lemma bulk_data_length (f : list (Scalar F) → list (Scalar F)) scalar_t elem_t size g :
  (∀ l, length l = 16%nat → length (f l) = 16%nat) → 16 ≤ size →
  Z.of_nat (length (bulk_data f scalar_t elem_t size g)) = size.
Proof.
  intros Hf Hsize. unfold bulk_data.
  pose proof (uniform_pass_length scalar_t size g ltac:(lia)) as Hl.
  destruct (uniform_pass scalar_t size g) as [xs1 g1]. cbn [fst] in Hl.
  pose proof (Z.div_pos size 16 ltac:(lia) ltac:(lia)) as Hq.
  pose proof (Z.mul_div_le size 16 ltac:(lia)) as Hq'.
  assert (Hd : length (transform_blocks f (Z.to_nat (size / 16))
                         ((λ x, SReal (fround elem_t x)) <$> xs1)) = length xs1).
  { rewrite transform_blocks_length by (rewrite ?length_fmap; done || lia).
    by rewrite length_fmap. }
  case_bool_decide; [lia|].
  pose proof (uniform_pass_length scalar_t 16 g1 ltac:(lia)) as Hl2.
  rewrite length_app, length_take, Hd, Hf by (rewrite length_fmap; lia). lia.
Qed.

(** C10. On a contiguous output of 16 or more elements the bulk fill
    (scalar for double, half and bfloat16, vectorized for float) draws all
    the uniforms of its first pass before any block is transformed: its log
    is the first pass of [size] draws, one assigned to each element in
    order, then the complete blocks, which draw nothing, then the tail,
    which draws 16 more uniforms exactly when [size] is not a multiple of
    16.  The generator it leaves is the one after that many draws, and the
    output is the buffer of the first pass with its blocks transformed
    (the last 16 elements replaced by the transformed second pass when there
    is a tail). *)
Theorem bulk_normal_draws_up_front self mean std g :
  16 ≤ numel self → is_contiguous self = true →
  scalar_type self ∈ [kDouble; kFloat; kHalf; kBFloat16] →
  let T := scalar_type self in
  let size := numel self in
  let v := bulk_vectorized T in
  (length (bulk_data (bulk_transform T mean std) T T size g) = length (storage self) ∧
   normal_kernel self mean std (enter self g) =
     (mkState (after_bulk_fill T size g)
        (bulk_data (bulk_transform T mean std) T T size g)
        (EvCall (bulk_routine T)
           :: first_pass T size ++ complete_blocks v size ++ tail_block v T size),
      Ok tt)) ∧
  fill_uniform T T 0 size (mkState g (storage self) [EvCall (bulk_routine T)]) =
    (mkState (uniform_pass T size g).2
       ((λ x, SReal (fround T x)) <$> (uniform_pass T size g).1)
       (EvCall (bulk_routine T) :: first_pass T size), Ok tt) ∧
  bulk_data (bulk_transform T mean std) T T size g =
    (let d := transform_blocks (bulk_transform T mean std) (Z.to_nat (size / 16))
                ((λ x, SReal (fround T x)) <$> (uniform_pass T size g).1) in
     if bool_decide (size mod 16 = 0) then d
     else take (Z.to_nat (size - 16)) d
            ++ bulk_transform T mean std
                 ((λ x, SReal (fround T x))
                    <$> (uniform_pass T 16 (uniform_pass T size g).2).1)) ∧
  (T ≠ kFloat → bulk_routine T = r_normal_fill) ∧
  samples_of (first_pass T size) = replicate (Z.to_nat size) (uniform_real, T) ∧
  stores_of (first_pass T size) = seqZ 0 size ∧
  samples_of (complete_blocks v size) = [] ∧
  samples_of (tail_block v T size) =
    (if bool_decide (size mod 16 = 0) then [] else replicate 16 (uniform_real, T)).
Proof.
  intros Hsize Hcontig Hty. simpl. split_and!.
  - apply Nat2Z.inj. rewrite bulk_data_length; [done|apply bulk_transform_length|done].
  - apply (normal_kernel_bulk_fun self mean std g Hsize Hcontig Hty).
  - pose proof (first_pass_run (scalar_type self) (scalar_type self) (numel self)
      (mkState g (storage self) [EvCall (bulk_routine (scalar_type self))]) eq_refl) as Hfp.
    cbn [generator data trace] in Hfp.
    by destruct (uniform_pass (scalar_type self) (numel self) g).
  - unfold bulk_data. by destruct (uniform_pass (scalar_type self) (numel self) g).
  - intros Hfloat. unfold bulk_routine. by rewrite bool_decide_false.
  - unfold first_pass. by rewrite samples_of_sample_store, length_seqZ.
  - apply stores_of_sample_store.
  - apply samples_of_complete_blocks.
  - unfold tail_block. case_bool_decide; [done|].
    unfold samples_of. rewrite omap_app.
    change (omap _ (block_trace ?b ?off)) with (samples_of (block_trace b off)).
    rewrite samples_of_block_trace, app_nil_r.
    change (omap _ (sample_store ?d ?T ?l)) with (samples_of (sample_store d T l)).
    by rewrite samples_of_sample_store, length_seqZ.
Qed.

(** C8. On a contiguous output of [size] elements, 16 or more, the bulk
    fill (scalar or vectorized) runs its complete blocks and then, when
    [size] is not a multiple of 16, draws 16 fresh uniforms into the last
    16 elements and transforms that block again: the elements from
    [size - 16] up to the end of the last complete block, between 1 and 15
    of them, had been assigned by a complete block, and the last 16
    elements of the output are the Box-Muller transform of the 16 fresh
    uniforms, the elements before them those the complete blocks left.
    When [size] is a multiple of 16 there is no tail, the blocks assign
    each element once and the output is the first pass with every block
    transformed. *)
Theorem bulk_normal_tail_recompute self mean std g :
  16 ≤ numel self → is_contiguous self = true →
  scalar_type self ∈ [kDouble; kFloat; kHalf; kBFloat16] →
  let T := scalar_type self in
  let size := numel self in
  let v := bulk_vectorized T in
  let blocks := transform_blocks (bulk_transform T mean std) (Z.to_nat (size / 16))
                  ((λ x, SReal (fround T x)) <$> (uniform_pass T size g).1) in
  (length (data (normal_kernel self mean std (enter self g)).1) = length (storage self) ∧
   normal_kernel self mean std (enter self g) =
     (mkState (after_bulk_fill T size g)
        (bulk_data (bulk_transform T mean std) T T size g)
        (EvCall (bulk_routine T)
           :: first_pass T size ++ complete_blocks v size ++ tail_block v T size),
      Ok tt)) ∧
  (size mod 16 ≠ 0 →
     tail_block v T size =
       sample_store uniform_real T (seqZ (size - 16) 16) ++ block_trace v (size - 16) ∧
     (∀ i, i ∈ stores_of (block_trace v (size - 16)) ↔ size - 16 ≤ i < size) ∧
     (∀ i, i ∈ stores_of (block_trace v (size - 16)) ∧
           i ∈ stores_of (complete_blocks v size) ↔
           size - 16 ≤ i < 16 * (size / 16)) ∧
     1 ≤ 16 * (size / 16) - (size - 16) ≤ 15 ∧
     take (Z.to_nat (size - 16)) (data (normal_kernel self mean std (enter self g)).1)
       = take (Z.to_nat (size - 16)) blocks ∧
     drop (Z.to_nat (size - 16)) (data (normal_kernel self mean std (enter self g)).1)
       = bulk_transform T mean std
           ((λ x, SReal (fround T x))
              <$> (uniform_pass T 16 (uniform_pass T size g).2).1)) ∧
  (size mod 16 = 0 →
     tail_block v T size = [] ∧
     NoDup (stores_of (complete_blocks v size)) ∧
     stores_of (complete_blocks v size) ≡ₚ seqZ 0 size ∧
     data (normal_kernel self mean std (enter self g)).1 = blocks).
Proof.
  intros Hsize Hcontig Hty. simpl.
  pose proof (Z.div_mod (numel self) 16 ltac:(lia)) as Hdiv.
  pose proof (Z.mod_pos_bound (numel self) 16 ltac:(lia)) as Hmod.
  pose proof (Z.div_pos (numel self) 16 ltac:(lia) ltac:(lia)) as Hq.
  rewrite (normal_kernel_bulk_fun self mean std g Hsize Hcontig Hty). cbn [fst data].
  pose proof (bulk_data_length (bulk_transform (scalar_type self) mean std)
    (scalar_type self) (scalar_type self) (numel self) g
    (bulk_transform_length _ _ _) Hsize) as Hlen.
  assert (Hdata : bulk_data (bulk_transform (scalar_type self) mean std)
             (scalar_type self) (scalar_type self) (numel self) g =
    (let d := transform_blocks (bulk_transform (scalar_type self) mean std)
                (Z.to_nat (numel self / 16))
                ((λ x, SReal (fround (scalar_type self) x))
                   <$> (uniform_pass (scalar_type self) (numel self) g).1) in
     if bool_decide (numel self mod 16 = 0) then d
     else take (Z.to_nat (numel self - 16)) d
            ++ bulk_transform (scalar_type self) mean std
                 ((λ x, SReal (fround (scalar_type self) x))
                    <$> (uniform_pass (scalar_type self) 16
                           (uniform_pass (scalar_type self) (numel self) g).2).1))).
  { unfold bulk_data. by destruct (uniform_pass (scalar_type self) (numel self) g). }
  cbn zeta in Hdata.
  pose proof (uniform_pass_length (scalar_type self) (numel self) g ltac:(lia)) as Hl1.
  assert (Hblocks : length (transform_blocks (bulk_transform (scalar_type self) mean std)
                      (Z.to_nat (numel self / 16))
                      ((λ x, SReal (fround (scalar_type self) x))
                         <$> (uniform_pass (scalar_type self) (numel self) g).1))
                    = Z.to_nat (numel self)).
  { rewrite transform_blocks_length; rewrite ?length_fmap; [lia| |lia].
    apply bulk_transform_length. }
  split_and!.
  - apply Nat2Z.inj. by rewrite Hlen.
  - by unfold bulk_trace.
  - intros Hrem. split_and!.
    + unfold tail_block. by rewrite bool_decide_false.
    + intros i. rewrite stores_of_block_trace, elem_of_seqZ. lia.
    + intros i. rewrite stores_of_block_trace, stores_of_complete_blocks by lia.
      rewrite !elem_of_seqZ. lia.
    + lia.
    + lia.
    + rewrite Hdata, bool_decide_false by done.
      rewrite take_app_length'; [done|]. rewrite length_take. lia.
    + rewrite Hdata, bool_decide_false by done.
      rewrite drop_app_length'; [done|]. rewrite length_take. lia.
  - intros Hrem. split_and!.
    + unfold tail_block. by rewrite bool_decide_true.
    + rewrite stores_of_complete_blocks by lia. apply NoDup_seqZ.
    + rewrite stores_of_complete_blocks by lia.
      by replace (16 * (numel self / 16)) with (numel self) by lia.
    + by rewrite Hdata, bool_decide_true.
Qed.

(** X3. On a contiguous output of 16 or more elements of a floating type
    the normal kernel returns with every element determined by the uniform
    draws alone: the first pass with each complete block of 16 replaced by
    its Box-Muller transform and, for a size that is not a multiple of 16,
    with the last 16 elements replaced by the transform of the 16 draws of
    the second pass.  [mean] and [std] enter the transform converted to the
    element type. *)
Theorem normal_kernel_bulk_values self mean std g :
  16 ≤ numel self → is_contiguous self = true →
  scalar_type self ∈ [kDouble; kFloat; kHalf; kBFloat16] →
  normal_kernel self mean std (enter self g) =
    (mkState (after_bulk_fill (scalar_type self) (numel self) g)
       (bulk_data (bulk_transform (scalar_type self) mean std)
          (scalar_type self) (scalar_type self) (numel self) g)
       (bulk_trace (bulk_routine (scalar_type self)) (bulk_vectorized (scalar_type self))
          (scalar_type self) (numel self)), Ok tt).
Proof. apply normal_kernel_bulk_fun. Qed.

Lemma elem_of_fmap_subseteq {A B} (f : A → B) (l k : list A) y :
  l ⊆ k → y ∈ f <$> l → y ∈ f <$> k.
Proof.
  intros Hl (x & -> & Hx)%list_elem_of_fmap. by apply list_elem_of_fmap_2, Hl.
Qed.

Lemma transform_pairs_elem pair (l : list (Scalar F)) x :
  x ∈ transform_pairs pair l →
  ∃ a b, a ∈ as_real <$> l ∧ b ∈ as_real <$> l ∧
    (x = SReal (pair a b).1 ∨ x = SReal (pair a b).2).
Proof.
  unfold transform_pairs. rewrite elem_of_app.
  assert (Hlo : ∀ a, a ∈ as_real <$> take 8 l → a ∈ as_real <$> l)
    by (intros a; apply elem_of_fmap_subseteq, subseteq_take).
  assert (Hhi : ∀ b, b ∈ as_real <$> take 8 (drop 8 l) → b ∈ as_real <$> l).
  { intros b. apply elem_of_fmap_subseteq.
    etrans; [apply subseteq_take|apply subseteq_drop]. }
  intros [Hx|Hx]; apply elem_of_lookup_zip_with in Hx as (i & a & b & -> & Ha & Hb);
    exists a, b; (split; [eapply Hlo, list_elem_of_lookup_2, Ha|]);
    (split; [eapply Hhi, list_elem_of_lookup_2, Hb|]); [by left|by right].
Qed.

Lemma transform_blocks_elem (f : list (Scalar F) → list (Scalar F)) c d x :
  (∀ l, length l = 16%nat → length (f l) = 16%nat) →
  (16 * c ≤ length d)%nat →
  x ∈ take (16 * c) (transform_blocks f c d) → ∃ l, l ⊆ d ∧ x ∈ f l.
Proof.
  intros Hf. revert d. induction c as [|c IH]; intros d Hlen.
  - rewrite Nat.mul_0_r, take_0. by intros ?%elem_of_nil.
  - cbn [transform_blocks].
    replace (16 * S c)%nat with (16 + 16 * c)%nat by lia.
    assert (Hb : length (f (take 16 d)) = 16%nat) by (apply Hf; rewrite length_take; lia).
    rewrite take_app_add' by done. rewrite elem_of_app. intros [Hx|Hx].
    + eexists. split; [apply subseteq_take|done].
    + destruct (IH (drop 16 d)) as (l & Hl & Hin); [rewrite length_drop; lia|done|].
      exists l. split; [|done]. etrans; [exact Hl|apply subseteq_drop].
Qed.

Lemma bulk_transform_pairs T mean std :
  bulk_transform T mean std = transform_pairs (bulk_pair T mean std).
Proof.
  unfold bulk_transform, bulk_pair, transform_16, transform_16_vectorize.
  by repeat case_bool_decide.
Qed.

Lemma stores_of_block_list v (l : list Z) j :
  j ∈ stores_of (l ≫= block_trace v) ↔ ∃ off, off ∈ l ∧ off ≤ j < off + 16.
Proof.
  unfold stores_of. rewrite omap_bind, list_elem_of_bind. split.
  - intros (off & Hj & Hoff). exists off. split; [done|].
    change (omap _ (block_trace v off)) with (stores_of (block_trace v off)) in Hj.
    rewrite stores_of_block_trace, elem_of_seqZ in Hj. lia.
  - intros (off & Hoff & Hj). exists off. split; [|done].
    change (omap ?f (block_trace v off)) with (stores_of (block_trace v off)).
    rewrite stores_of_block_trace, elem_of_seqZ. lia.
Qed.

(** The last assignment of element [i] in the log of a bulk fill is one of
    a block routine. *)
Lemma bulk_trace_last_store r v T size i :
  16 ≤ size → 0 ≤ i < size →
  ∃ pre off post,
    bulk_trace r v T size = pre ++ block_trace v off ++ post ∧
    i ∈ stores_of (block_trace v off) ∧ i ∉ stores_of post.
Proof.
  intros Hsize Hi. unfold bulk_trace.
  pose proof (Z.div_mod size 16 ltac:(lia)) as Hdiv.
  pose proof (Z.mod_pos_bound size 16 ltac:(lia)) as Hmod.
  pose proof (Z.div_pos size 16 ltac:(lia) ltac:(lia)) as Hq.
  destruct (decide (size mod 16 ≠ 0 ∧ size - 16 ≤ i)) as [[Hrem Htail]|Hblock].
  - exists (EvCall r :: first_pass T size ++ complete_blocks v size
              ++ sample_store uniform_real T (seqZ (size - 16) 16)), (size - 16), [].
    split_and!.
    + unfold tail_block. rewrite bool_decide_false by done.
      rewrite app_nil_r. cbn [app]. by rewrite <- !app_assoc.
    + rewrite stores_of_block_trace, elem_of_seqZ. lia.
    + by intros ?%elem_of_nil.
  - set (k := i / 16).
    pose proof (Z.div_mod i 16 ltac:(lia)) as Hik.
    pose proof (Z.mod_pos_bound i 16 ltac:(lia)) as Him.
    assert (Hk : 0 ≤ k < size / 16).
    { split; [apply Z.div_pos; lia|]. apply Z.div_lt_upper_bound; [lia|].
      destruct (decide (size mod 16 = 0)); lia. }
    fold k in Hik.
    exists (EvCall r :: first_pass T size
              ++ (((λ k, 16 * k) <$> seqZ 0 k) ≫= block_trace v)), (16 * k),
           ((((λ k, 16 * k) <$> seqZ (k + 1) (size / 16 - (k + 1))) ≫= block_trace v)
              ++ tail_block v T size).
    split_and!.
    + unfold complete_blocks, block_offsets.
      replace (size / 16) with (k + (1 + (size / 16 - (k + 1)))) at 1 by lia.
      rewrite seqZ_app, seqZ_app by lia.
      rewrite !fmap_app, !bind_app. change (seqZ (0 + k) 1) with [0 + k].
      rewrite Z.add_0_l. cbn [fmap list_fmap mbind list_bind].
      rewrite app_nil_r. replace (0 + k + 1) with (k + 1) by lia.
      cbn [app]. by rewrite <- !app_assoc.
    + rewrite stores_of_block_trace, elem_of_seqZ. lia.
    + unfold stores_of. rewrite omap_app, elem_of_app. intros [Hin|Hin].
      * apply stores_of_block_list in Hin as (off & Hoff & Hin).
        apply list_elem_of_fmap in Hoff as (k' & -> & Hk'%elem_of_seqZ). lia.
      * unfold tail_block in Hin. case_bool_decide as Hrem; [by apply elem_of_nil in Hin|].
        rewrite omap_app, elem_of_app in Hin.
        change (omap _ (sample_store ?d ?T' ?l)) with (stores_of (sample_store d T' l)) in Hin.
        change (omap _ (block_trace ?b ?off)) with (stores_of (block_trace b off)) in Hin.
        rewrite stores_of_sample_store, stores_of_block_trace, !elem_of_seqZ in Hin.
        assert (i < size - 16) by (destruct (decide (size - 16 ≤ i)); [tauto|lia]). lia.
Qed.

Lemma bulk_data_elem (pair : F → F → F * F) T size g x :
  16 ≤ size →
  x ∈ bulk_data (transform_pairs pair) T T size g →
  ∃ a b, a ∈ bulk_uniforms T size g ∧ b ∈ bulk_uniforms T size g ∧
    (x = SReal (pair a b).1 ∨ x = SReal (pair a b).2).
Proof.
  intros Hsize. unfold bulk_data, bulk_uniforms.
  pose proof (uniform_pass_length T size g ltac:(lia)) as Hl.
  destruct (uniform_pass T size g) as [xs g1]. cbn [fst] in Hl.
  set (f := transform_pairs pair).
  assert (Hf : ∀ l : list (Scalar F), length l = 16%nat → length (f l) = 16%nat)
    by (intros l Hl'; by apply transform_pairs_length).
  set (d := (λ x, SReal (fround T x)) <$> xs).
  assert (Hd : Z.of_nat (length d) = size) by (unfold d; by rewrite length_fmap).
  assert (Hreal : ∀ ys : list F, as_real <$> ((λ x, SReal (fround T x)) <$> ys)
                                 = fround T <$> ys).
  { intros ys. rewrite <- list_fmap_compose. by apply list_fmap_ext. }
  pose proof (Z.div_pos size 16 ltac:(lia) ltac:(lia)) as Hq.
  pose proof (Z.mul_div_le size 16 ltac:(lia)) as Hq'.
  pose proof (Z.mod_pos_bound size 16 ltac:(lia)) as Hr.
  pose proof (Z.div_mod size 16 ltac:(lia)) as Hdm.
  assert (Hblocks : ∀ n, (n ≤ 16 * Z.to_nat (size / 16))%nat →
    x ∈ take n (transform_blocks f (Z.to_nat (size / 16)) d) →
    ∃ a b, a ∈ fround T <$> xs ∧ b ∈ fround T <$> xs ∧
      (x = SReal (pair a b).1 ∨ x = SReal (pair a b).2)).
  { intros n Hn Hx.
    destruct (transform_blocks_elem f (Z.to_nat (size / 16)) d x Hf) as (l & Hl' & Hin);
      [lia| |].
    - rewrite <- (Nat.min_l _ _ Hn), <- take_take in Hx. by apply subseteq_take in Hx.
    - apply transform_pairs_elem in Hin as (a & b & Ha & Hb & Hab).
      exists a, b. rewrite <- Hreal. fold d.
      split_and!; [| |done]; eapply elem_of_fmap_subseteq; done. }
  case_bool_decide as Hrem.
  - intros Hx. rewrite app_nil_r.
    apply (Hblocks (16 * Z.to_nat (size / 16))%nat); [lia|].
    rewrite take_ge; [done|]. rewrite transform_blocks_length by (done || lia). lia.
  - rewrite elem_of_app, fmap_app. intros [Hx|Hx].
    + destruct (Hblocks (Z.to_nat (size - 16))) as (a & b & Ha & Hb & Hab); [lia|done|].
      exists a, b. rewrite !elem_of_app. by eauto.
    + apply transform_pairs_elem in Hx as (a & b & Ha & Hb & Hab).
      rewrite Hreal in Ha, Hb. exists a, b. rewrite !elem_of_app. by eauto.
Qed.

(** X4. After a bulk normal fill no element is left as a pass of uniform
    draws assigned it: the last assignment of every element in the log is
    one of a block routine, and the element holds a component of the
    Box-Muller pair of two of the uniforms this call has drawn, computed at
    the element type (by the vector routine for float on an 8-lane unit). *)
Theorem normal_kernel_bulk_all_transformed self mean std g i :
  16 ≤ numel self → is_contiguous self = true →
  scalar_type self ∈ [kDouble; kFloat; kHalf; kBFloat16] →
  0 ≤ i < numel self →
  (∃ pre off post,
     trace (normal_kernel self mean std (enter self g)).1
       = pre ++ block_trace (bulk_vectorized (scalar_type self)) off ++ post ∧
     i ∈ stores_of (block_trace (bulk_vectorized (scalar_type self)) off) ∧
     i ∉ stores_of post) ∧
  (∃ x a b,
     data (normal_kernel self mean std (enter self g)).1 !! Z.to_nat i = Some x ∧
     a ∈ bulk_uniforms (scalar_type self) (numel self) g ∧
     b ∈ bulk_uniforms (scalar_type self) (numel self) g ∧
     (x = SReal (bulk_pair (scalar_type self) mean std a b).1 ∨
      x = SReal (bulk_pair (scalar_type self) mean std a b).2)).
Proof.
  intros Hsize Hcontig Hty Hi.
  rewrite (normal_kernel_bulk_fun _ _ _ _ Hsize Hcontig Hty). cbn [fst data trace].
  split; [by apply bulk_trace_last_store|].
  pose proof (bulk_data_length (bulk_transform (scalar_type self) mean std)
    (scalar_type self) (scalar_type self) (numel self) g
    (bulk_transform_length _ _ _) Hsize) as Hlen.
  destruct (lookup_lt_is_Some_2
    (bulk_data (bulk_transform (scalar_type self) mean std)
       (scalar_type self) (scalar_type self) (numel self) g) (Z.to_nat i)) as [x Hx]; [lia|].
  apply list_elem_of_lookup_2 in Hx as Hin.
  rewrite bulk_transform_pairs in Hin.
  apply bulk_data_elem in Hin as (a & b & Ha & Hb & Hab); [|done].
  by exists x, a, b.
Qed.

(** *** When the normal kernel returns *)

(** X5. The normal kernel returns exactly for the outputs of type double,
    float, half and bfloat16, whatever their size and layout: for these no
    element outside the buffer is ever addressed and no loop runs out of
    steps; for any other type the only failure is the dispatch error, with
    generator and output untouched. *)
Theorem normal_kernel_returns self mean std g :
  ((normal_kernel self mean std (enter self g)).2 = Ok tt ↔
   scalar_type self ∈ [kDouble; kFloat; kHalf; kBFloat16]) ∧
  ((normal_kernel self mean std (enter self g)).2 ≠ Ok tt →
   normal_kernel self mean std (enter self g) =
     (mkState g (storage self) [],
      Throw (NotImplemented "normal_kernel_cpu" (scalar_type self)))).
Proof.
  destruct (decide (scalar_type self ∈ [kDouble; kFloat; kHalf; kBFloat16])) as [Hty|Hty].
  - assert (Hok : (normal_kernel self mean std (enter self g)).2 = Ok tt).
    { destruct (decide (16 ≤ numel self ∧ is_contiguous self = true))
        as [[Hsize Hcontig]|Hbulk].
      - by destruct (normal_kernel_bulk_run self mean std g Hsize Hcontig Hty)
          as (d' & _ & ->).
      - rewrite (normal_kernel_serial_run _ _ _ _ Hbulk Hty).
        unfold serial_fill. by destruct (draws _ _ g). }
    split; [by split|]. by intros [].
  - rewrite (normal_kernel_reject _ _ _ _ Hty). split; [by split|done].
Qed.

(** X6. Called on an output of 1 to 15 elements, which the normal kernel
    never does, either bulk fill addresses the element at [size - 16],
    before the start of the buffer, in its second pass; on an empty output
    it returns without drawing. *)
Theorem bulk_fills_need_16_elements scalar_t self mean std g :
  (0 < numel self < 16 →
     (normal_fill scalar_t self mean std (enter self g)).2
       = Throw (OutOfBounds (numel self - 16)) ∧
     (normal_fill_vectorize scalar_t self mean std (enter self g)).2
       = Throw (OutOfBounds (numel self - 16))) ∧
  (numel self = 0 →
     normal_fill scalar_t self mean std (enter self g)
       = (mkState g [] [EvCall r_normal_fill], Ok tt) ∧
     normal_fill_vectorize scalar_t self mean std (enter self g)
       = (mkState g [] [EvCall r_normal_fill_vectorize], Ok tt)).
Proof.
  split.
  - intros Hsize.
    assert (Htail : ∀ elem_t st, Z.of_nat (length (data st)) = numel self →
      ∀ k : unit → M unit,
        ((fill_uniform scalar_t elem_t (numel self - 16) 16 ≫= k) st).2
          = Throw (OutOfBounds (numel self - 16))).
    { intros elem_t st Hlen k. unfold fill_uniform.
      change (irange 16) with (0 :: seqZ 1 15). cbn [for_each].
      unfold mbind, M_bind, sample.
      destruct (uniform_real_distribution _ _ _ (generator st)) as [x g'].
      unfold store. cbn [data]. rewrite bool_decide_false by lia.
      by rewrite Z.add_0_r. }
    assert (Hrun : ∀ r elem_t (block : Z → M unit),
      ((emit (EvCall r) ;; fill_uniform scalar_t elem_t 0 (numel self) ;;
        for_step_16 (S (Z.to_nat (numel self))) 0 (numel self - 15) block ;;
        if bool_decide (Z.rem (numel self) 16 ≠ 0) then
          fill_uniform scalar_t elem_t (numel self - 16) 16 ;; block (numel self - 16)
        else mret tt) (enter self g)).2 = Throw (OutOfBounds (numel self - 16))).
    { intros r elem_t block. erewrite bind_ok by reflexivity.
      pose proof (first_pass_run scalar_t elem_t (numel self)
        (mkState g (storage self) ([] ++ [EvCall r])) eq_refl) as Hfp.
      pose proof (uniform_pass_length scalar_t (numel self) g ltac:(lia)) as Hl.
      unfold enter. cbn [generator data trace] in *.
      destruct (uniform_pass scalar_t (numel self) g) as [xs g1].
      rewrite (bind_ok _ _ _ _ _ Hfp).
      cbn [for_step_16]. rewrite (bool_decide_false (0 < numel self - 15)) by lia.
      rewrite bind_ret. rewrite Z.rem_mod_nonneg, Z.mod_small by lia.
      rewrite (bool_decide_true (numel self ≠ 0)) by lia.
      apply Htail. cbn [data fst] in *. by rewrite length_fmap. }
    split; [apply (Hrun r_normal_fill scalar_t)|].
    exact (Hrun r_normal_fill_vectorize kFloat
             (λ i, if bool_decide (Vec_size = 8)
                   then normal_fill_16_vectorize i (Vec_splat (fmul (fconst 2) fpi))
                          (Vec_splat (fconst 1)) (Vec_splat (fconst (-2)))
                          (Vec_splat mean) (Vec_splat std)
                   else normal_fill_16 scalar_t i mean std)).
  - intros Hsize. unfold numel in Hsize.
    destruct self as [ty sz c [|x l]]; [|simpl in Hsize; lia].
    done.
Qed.

(** X7. On an output of type float with 16 or more contiguous elements and
    a vector unit that does not have 8 lanes, the vectorized fill falls back
    to the scalar block routine for every block: it leaves the generator and
    the output that the scalar fill at float leaves. *)
Theorem vectorized_fill_falls_back self mean std g :
  Vec_size ≠ 8 → 16 ≤ numel self →
  ∃ g' d' tr,
    normal_fill_vectorize kFloat self mean std (enter self g)
      = (mkState g' d' (EvCall r_normal_fill_vectorize :: tr), Ok tt) ∧
    normal_fill kFloat self mean std (enter self g)
      = (mkState g' d' (EvCall r_normal_fill :: tr), Ok tt).
Proof.
  intros Hvec Hsize.
  exists (after_bulk_fill kFloat (numel self) g),
         (bulk_data (transform_16 kFloat mean std) kFloat kFloat (numel self) g),
         (first_pass kFloat (numel self) ++ complete_blocks false (numel self)
            ++ tail_block false kFloat (numel self)).
  assert (Hblock : ∀ off st, 0 ≤ off → off + 16 ≤ Z.of_nat (length (data st)) →
    normal_fill_16 kFloat off mean std st =
      (mkState (generator st) (with_block (transform_16 kFloat mean std) (Z.to_nat off)
                                 (data st))
         (trace st ++ block_trace false off), Ok tt))
    by (intros; by apply normal_fill_16_fun).
  split.
  - unfold normal_fill_vectorize. erewrite bind_ok by reflexivity.
    rewrite (bool_decide_false _ Hvec).
    pose proof (bulk_fun (λ i, normal_fill_16 kFloat i mean std)
      (transform_16 kFloat mean std) false kFloat kFloat (numel self)
      (mkState g (storage self) ([] ++ [EvCall r_normal_fill_vectorize]))) as Hrun.
    cbn beta in Hrun. unfold enter. cbn [generator data trace].
    rewrite Hrun; [reflexivity|done|by apply transform_pairs_length|done|done].
  - unfold normal_fill. erewrite bind_ok by reflexivity.
    pose proof (bulk_fun (λ i, normal_fill_16 kFloat i mean std)
      (transform_16 kFloat mean std) false kFloat kFloat (numel self)
      (mkState g (storage self) ([] ++ [EvCall r_normal_fill]))) as Hrun.
    cbn beta in Hrun. unfold enter. cbn [generator data trace].
    rewrite Hrun; [reflexivity|done|by apply transform_pairs_length|done|done].
Qed.

(** *** The kernels that fill element by element *)

Lemma throws_only_bind {A B} P (m : M A) (k : A → M B) :
  throws_only P m → (∀ a, throws_only P (k a)) → throws_only P (m ≫= k).
Proof.
  intros Hm Hk st e. unfold mbind, M_bind.
  destruct (m st) as [st' [a|e']] eqn:Em.
  - apply Hk.
  - intros [= <-]. apply (Hm st). by rewrite Em.
Qed.

Lemma throws_only_for_each {I} P (l : list I) (body : I → M unit) :
  (∀ i, throws_only P (body i)) → throws_only P (for_each l body).
Proof.
  intros Hbody. induction l as [|i l IH]; [by intros st e|].
  cbn [for_each]. apply throws_only_bind; [apply Hbody|by intros _].
Qed.

Lemma throws_only_store i (v : Scalar F) : throws_only access_error (store i v : M unit).
Proof. intros st e. unfold store. case_bool_decide; [done|]. by intros [= <-]. Qed.

Lemma throws_only_sample {A} P d T (dist : G → A * G) : throws_only P (sample d T dist : M A).
Proof. intros st e. unfold sample. by destruct (dist (generator st)). Qed.

Lemma throws_only_sample_partial {A} d T (dist : G → option (A * G)) :
  throws_only access_error (sample_partial d T dist : M A).
Proof.
  intros st e. unfold sample_partial.
  destruct (dist (generator st)) as [[x g']|]; [done|]. by intros [= <-].
Qed.

Lemma throws_only_cast {A} P d T (dist : G → A * G) (c : A → Scalar F) :
  throws_only P (x ← sample d T dist; mret (c x) : M (Scalar F)).
Proof. apply throws_only_bind; [apply throws_only_sample|by intros a st e]. Qed.

Lemma throws_only_cpu_serial_kernel iter (op : M (Scalar F)) :
  throws_only access_error op → throws_only access_error (cpu_serial_kernel iter op).
Proof.
  intros Hop. unfold cpu_serial_kernel.
  apply throws_only_bind; [by intros st e|intros _].
  apply throws_only_for_each. intros i.
  apply throws_only_bind; [done|intros v; apply throws_only_store].
Qed.

Lemma throws_only_cpu_serial_kernel_unary iter p (op : Scalar F → M (Scalar F)) :
  (∀ p_val, throws_only access_error (op p_val)) →
  throws_only access_error (cpu_serial_kernel_unary iter p op).
Proof.
  intros Hop. unfold cpu_serial_kernel_unary.
  apply throws_only_bind; [by intros st e|intros _].
  apply throws_only_for_each. intros i.
  destruct (storage p !! Z.to_nat i) as [p_val|].
  - apply throws_only_bind; [done|intros v; apply throws_only_store].
  - intros st e [= <-]. done.
Qed.

Lemma dispatch_cases {A} types t name (body : ScalarType → M A) st e :
  throws_only access_error (body t) →
  (AT_DISPATCH types t name body st).2 = Throw e → type_error e →
  (AT_DISPATCH types t name body st).1 = st.
Proof.
  intros Hbody. unfold AT_DISPATCH. case_bool_decide; [|done].
  intros He%Hbody Hty. by destruct e.
Qed.

(** X8. A kernel that fails a check on an element type (the dispatch of
    the output's type or of the probabilities' type, the check of the
    exponential or of the full-range kernel) has drawn and assigned
    nothing: the generator, the output and the log are those it was
    entered with. *)
Theorem type_errors_leave_state (c : Call) self g e :
  (run_call c self (enter self g)).2 = Throw e → type_error e →
  (run_call c self (enter self g)).1 = enter self g.
Proof.
  destruct c; cbn [run_call].
  - apply dispatch_cases, throws_only_cpu_serial_kernel, throws_only_sample_partial.
  - unfold random_full_64_bits_range_kernel, AT_DISPATCH_ALL_TYPES_AND, AT_DISPATCH.
    case_bool_decide; [|done].
    destruct (_ || _).
    + intros He%throws_only_cpu_serial_kernel; [by destruct e|].
      apply throws_only_sample.
    + done.
  - apply dispatch_cases, throws_only_cpu_serial_kernel, throws_only_sample.
  - destruct (decide (scalar_type self ∈ [kDouble; kFloat; kHalf; kBFloat16])) as [Hty|Hty].
    + destruct (decide (16 ≤ numel self ∧ is_contiguous self = true))
        as [[Hsize Hcontig]|Hbulk].
      * by destruct (normal_kernel_bulk_run self mean std g Hsize Hcontig Hty)
          as (d' & _ & ->).
      * rewrite (normal_kernel_serial_run _ _ _ _ Hbulk Hty).
        unfold serial_fill. by destruct (draws _ _ g).
    + by rewrite (normal_kernel_reject _ _ _ _ Hty).
  - apply dispatch_cases, throws_only_cpu_serial_kernel, throws_only_cast.
  - apply dispatch_cases, throws_only_cpu_serial_kernel, throws_only_cast.
  - apply dispatch_cases, throws_only_cpu_serial_kernel, throws_only_cast.
  - apply dispatch_cases, throws_only_cpu_serial_kernel, throws_only_cast.
  - unfold exponential_kernel. destruct (isFloatingType (dtype self)); [|done].
    cbn [TORCH_CHECK]. rewrite bind_ret.
    apply dispatch_cases, throws_only_cpu_serial_kernel, throws_only_cast.
  - unfold bernoulli_kernel, AT_DISPATCH_ALL_TYPES_AND3.
    destruct (decide (scalar_type self ∈ kBool :: kBFloat16 :: kHalf :: ALL_TYPES))
      as [Hty|Hty]; [|by rewrite AT_DISPATCH_notin].
    rewrite AT_DISPATCH_in by done. case_bool_decide.
    + intros He%throws_only_cpu_serial_kernel_unary; [by destruct e|].
      intros p_val. apply throws_only_cast.
    + apply dispatch_cases, throws_only_cpu_serial_kernel_unary.
      intros p_val. apply throws_only_cast.
  - apply dispatch_cases, throws_only_cpu_serial_kernel, throws_only_cast.
Qed.

Lemma cpu_serial_kernel_empty iter (op : M (Scalar F)) st :
  numel iter = 0 →
  cpu_serial_kernel iter op st =
    (mkState (generator st) (data st) (trace st ++ [EvCall r_cpu_serial_kernel]), Ok tt).
Proof. intros Hn. unfold cpu_serial_kernel. by rewrite Hn. Qed.

Lemma cpu_serial_kernel_unary_empty iter p (op : Scalar F → M (Scalar F)) st :
  numel iter = 0 →
  cpu_serial_kernel_unary iter p op st =
    (mkState (generator st) (data st) (trace st ++ [EvCall r_cpu_serial_kernel]), Ok tt).
Proof. intros Hn. unfold cpu_serial_kernel_unary. by rewrite Hn. Qed.

Lemma dispatch_empty types t name (body : ScalarType → M unit) g :
  (∃ tr, (body t (mkState g [] [])).1 = mkState g [] tr ∧
     samples_of tr = [] ∧ stores_of tr = [] ∧
     ((body t (mkState g [] [])).2 = Ok tt ∨
      ∃ e, (body t (mkState g [] [])).2 = Throw e ∧ type_error e)) →
  ∃ tr, (AT_DISPATCH types t name body (mkState g [] [])).1 = mkState g [] tr ∧
    samples_of tr = [] ∧ stores_of tr = [] ∧
    ((AT_DISPATCH types t name body (mkState g [] [])).2 = Ok tt ∨
     ∃ e, (AT_DISPATCH types t name body (mkState g [] [])).2 = Throw e ∧ type_error e).
Proof.
  intros Hbody. unfold AT_DISPATCH. case_bool_decide; [done|].
  eexists. split_and!; [done..|]. right. by eexists.
Qed.

(** X9. On an output without elements no kernel draws from the generator
    or assigns anything: the generator is left as given, and the call
    returns or fails a check on the element type. *)
Theorem empty_output_draws_nothing (c : Call) self g :
  numel self = 0 →
  ∃ tr, (run_call c self (enter self g)).1 = mkState g [] tr ∧
    samples_of tr = [] ∧ stores_of tr = [] ∧
    ((run_call c self (enter self g)).2 = Ok tt ∨
     ∃ e, (run_call c self (enter self g)).2 = Throw e ∧ type_error e).
Proof.
  intros Hn.
  assert (Hs : storage self = []).
  { unfold numel in Hn. by destruct (storage self). }
  assert (Hserial : ∀ op : M (Scalar F),
    ∃ tr, (cpu_serial_kernel self op (mkState g [] [])).1 = mkState g [] tr ∧
      samples_of tr = [] ∧ stores_of tr = [] ∧
      ((cpu_serial_kernel self op (mkState g [] [])).2 = Ok tt ∨
       ∃ e, (cpu_serial_kernel self op (mkState g [] [])).2 = Throw e ∧ type_error e)).
  { intros op. rewrite cpu_serial_kernel_empty by done.
    eexists. split_and!; [done..|by left]. }
  assert (Hunary : ∀ p (op : Scalar F → M (Scalar F)),
    ∃ tr, (cpu_serial_kernel_unary self p op (mkState g [] [])).1 = mkState g [] tr ∧
      samples_of tr = [] ∧ stores_of tr = [] ∧
      ((cpu_serial_kernel_unary self p op (mkState g [] [])).2 = Ok tt ∨
       ∃ e, (cpu_serial_kernel_unary self p op (mkState g [] [])).2 = Throw e
            ∧ type_error e)).
  { intros p op. rewrite cpu_serial_kernel_unary_empty by done.
    eexists. split_and!; [done..|by left]. }
  destruct c; cbn [run_call].
  - unfold enter. rewrite Hs. apply dispatch_empty, Hserial.
  - unfold enter. rewrite Hs. apply dispatch_empty.
    destruct (_ || _); [apply Hserial|].
    eexists. split_and!; [done..|]. right. by eexists.
  - unfold enter. rewrite Hs. apply dispatch_empty, Hserial.
  - destruct (decide (scalar_type self ∈ [kDouble; kFloat; kHalf; kBFloat16])) as [Hty|Hty].
    + rewrite normal_kernel_serial_run by (done || lia). rewrite Hn.
      eexists. split_and!; [done..|by left].
    + rewrite (normal_kernel_reject _ _ _ _ Hty), Hs.
      eexists. split_and!; [done..|]. right. by eexists.
  - unfold enter. rewrite Hs. apply dispatch_empty, Hserial.
  - unfold enter. rewrite Hs. apply dispatch_empty, Hserial.
  - unfold enter. rewrite Hs. apply dispatch_empty, Hserial.
  - unfold enter. rewrite Hs. apply dispatch_empty, Hserial.
  - unfold enter. rewrite Hs. unfold exponential_kernel.
    destruct (isFloatingType (dtype self)).
    + cbn [TORCH_CHECK]. rewrite bind_ret. apply dispatch_empty, Hserial.
    + eexists. split_and!; [done..|]. right. by eexists.
  - unfold enter. rewrite Hs. unfold bernoulli_kernel, AT_DISPATCH_ALL_TYPES_AND3.
    apply dispatch_empty. cbn beta. case_bool_decide; [apply Hunary|].
    apply dispatch_empty, Hunary.
  - unfold enter. rewrite Hs. apply dispatch_empty, Hserial.
Qed.

Lemma draws_once_sample {A} d T (dist : G → A * G) : draws_once d T (sample d T dist : M A).
Proof.
  intros st st' v. unfold sample. destruct (dist (generator st)) as [x g'].
  by intros [= <- _].
Qed.

Lemma draws_once_sample_partial {A} d T (dist : G → option (A * G)) :
  draws_once d T (sample_partial d T dist : M A).
Proof.
  intros st st' v. unfold sample_partial.
  destruct (dist (generator st)) as [[x g']|]; [|done]. by intros [= <- _].
Qed.

Lemma draws_once_cast {A} d T (dist : G → A * G) (c : A → Scalar F) :
  draws_once d T (x ← sample d T dist; mret (c x) : M (Scalar F)).
Proof.
  intros st st' v. unfold mbind, M_bind, sample.
  destruct (dist (generator st)) as [x g']. by intros [= <- _].
Qed.

Lemma store_after_draws_once d T (op : M (Scalar F)) i st st' :
  draws_once d T op →
  (v ← op; store i v) st = (st', Ok tt) →
  trace st' = trace st ++ [EvSample d T; EvStore i] ∧ length (data st') = length (data st).
Proof.
  intros Hop. unfold mbind, M_bind.
  destruct (op st) as [st1 [v|e]] eqn:Eop; [|done].
  destruct (Hop _ _ _ Eop) as [Htr Hd].
  unfold store. case_bool_decide; [|done]. intros [= <-]. cbn [trace data].
  rewrite Htr, Hd, length_insert. by rewrite <- app_assoc.
Qed.

Lemma for_each_assigns d T (body : Z → M unit) l :
  (∀ i st st', body i st = (st', Ok tt) →
     trace st' = trace st ++ [EvSample d T; EvStore i] ∧
     length (data st') = length (data st)) →
  ∀ st st', for_each l body st = (st', Ok tt) →
    trace st' = trace st ++ sample_store d T l ∧ length (data st') = length (data st).
Proof.
  intros Hbody. induction l as [|i l IH]; intros st st'.
  - intros [= <-]. by rewrite app_nil_r.
  - cbn [for_each]. unfold mbind, M_bind.
    destruct (body i st) as [st1 [[]|e]] eqn:Ebody; [|done].
    destruct (Hbody _ _ _ Ebody) as [Htr Hd]. intros [Htr' Hd']%IH.
    rewrite Htr', Htr, Hd', Hd. by rewrite <- app_assoc.
Qed.

Lemma cpu_serial_kernel_assigns iter (op : M (Scalar F)) d T st st' :
  draws_once d T op →
  cpu_serial_kernel iter op st = (st', Ok tt) →
  trace st' = trace st ++ EvCall r_cpu_serial_kernel :: sample_store d T (irange (numel iter))
  ∧ length (data st') = length (data st).
Proof.
  intros Hop. unfold cpu_serial_kernel. erewrite bind_ok by reflexivity.
  intros [Htr Hd]%(for_each_assigns d T); [|by intros; eapply store_after_draws_once].
  cbn [trace data] in *. by rewrite Htr, <- app_assoc.
Qed.

Lemma cpu_serial_kernel_unary_assigns iter p (op : Scalar F → M (Scalar F)) d T st st' :
  (∀ p_val, draws_once d T (op p_val)) →
  cpu_serial_kernel_unary iter p op st = (st', Ok tt) →
  trace st' = trace st ++ EvCall r_cpu_serial_kernel :: sample_store d T (irange (numel iter))
  ∧ length (data st') = length (data st).
Proof.
  intros Hop. unfold cpu_serial_kernel_unary. erewrite bind_ok by reflexivity.
  intros [Htr Hd]%(for_each_assigns d T).
  - cbn [trace data] in *. by rewrite Htr, <- app_assoc.
  - intros i st1 st2. destruct (storage p !! Z.to_nat i) as [p_val|]; [|done].
    by apply store_after_draws_once.
Qed.

Lemma dispatch_ok {A} types t name (body : ScalarType → M A) st st' a :
  AT_DISPATCH types t name body st = (st', Ok a) → body t st = (st', Ok a).
Proof. unfold AT_DISPATCH. by case_bool_decide. Qed.

(** X10. Every call that returns, a normal fill of a contiguous output of
    16 or more elements apart, has assigned each element of the output
    exactly once, in the order of the positions, each right after one call
    of a distribution object: its log is the entry of the element-wise
    iteration followed by one draw and one assignment per element. *)
Theorem per_element_fills_assign_once (c : Call) self g :
  per_element c self →
  (run_call c self (enter self g)).2 = Ok tt →
  (∃ d T, trace (run_call c self (enter self g)).1 =
            EvCall r_cpu_serial_kernel :: sample_store d T (irange (numel self))) ∧
  stores_of (trace (run_call c self (enter self g)).1) = irange (numel self) ∧
  length (samples_of (trace (run_call c self (enter self g)).1)) = length (storage self) ∧
  length (data (run_call c self (enter self g)).1) = length (storage self).
Proof.
  intros Hpe Hok.
  destruct (run_call c self (enter self g)) as [st' o] eqn:Erun.
  cbn [fst snd] in *. subst o.
  assert (∃ d T,
    trace st' = [] ++ EvCall r_cpu_serial_kernel :: sample_store d T (irange (numel self)) ∧
    length (data st') = length (storage self)) as (d & T & Htr & Hd).
  { destruct c; cbn [run_call per_element] in *.
    - apply dispatch_ok in Erun. eexists _, _.
      eapply (cpu_serial_kernel_assigns _ _ _ _ (enter self g)); [|exact Erun].
      apply draws_once_sample_partial.
    - apply dispatch_ok in Erun. cbn beta in Erun. destruct (_ || _); [|done].
      eexists _, _. eapply (cpu_serial_kernel_assigns _ _ _ _ (enter self g)); [|exact Erun].
      apply draws_once_sample.
    - apply dispatch_ok in Erun. eexists _, _.
      eapply (cpu_serial_kernel_assigns _ _ _ _ (enter self g)); [|exact Erun].
      apply draws_once_sample.
    - destruct (decide (scalar_type self ∈ [kDouble; kFloat; kHalf; kBFloat16])) as [Hty|Hty].
      + rewrite (normal_kernel_serial_run _ _ _ _ Hpe Hty) in Erun.
        rewrite <- cpu_serial_kernel_enter in Erun. eexists _, _.
        eapply (cpu_serial_kernel_assigns _ _ _ _ (enter self g)); [|exact Erun].
      apply draws_once_cast.
      + by rewrite (normal_kernel_reject _ _ _ _ Hty) in Erun.
    - apply dispatch_ok in Erun. eexists _, _.
      eapply (cpu_serial_kernel_assigns _ _ _ _ (enter self g)); [|exact Erun].
      apply draws_once_cast.
    - apply dispatch_ok in Erun. eexists _, _.
      eapply (cpu_serial_kernel_assigns _ _ _ _ (enter self g)); [|exact Erun].
      apply draws_once_cast.
    - apply dispatch_ok in Erun. eexists _, _.
      eapply (cpu_serial_kernel_assigns _ _ _ _ (enter self g)); [|exact Erun].
      apply draws_once_cast.
    - apply dispatch_ok in Erun. eexists _, _.
      eapply (cpu_serial_kernel_assigns _ _ _ _ (enter self g)); [|exact Erun].
      apply draws_once_cast.
    - unfold exponential_kernel in Erun. destruct (isFloatingType (dtype self)); [|done].
      cbn [TORCH_CHECK] in Erun. rewrite bind_ret in Erun.
      apply dispatch_ok in Erun. eexists _, _.
      eapply (cpu_serial_kernel_assigns _ _ _ _ (enter self g)); [|exact Erun].
      apply draws_once_cast.
    - unfold bernoulli_kernel, AT_DISPATCH_ALL_TYPES_AND3 in Erun.
      apply dispatch_ok in Erun. cbn beta in Erun. case_bool_decide.
      + eexists _, _. eapply (cpu_serial_kernel_unary_assigns _ _ _ _ _ (enter self g)); [|exact Erun].
        intros p_val. apply draws_once_cast.
      + apply dispatch_ok in Erun. eexists _, _.
        eapply (cpu_serial_kernel_unary_assigns _ _ _ _ _ (enter self g)); [|exact Erun].
        intros p_val. apply draws_once_cast.
    - apply dispatch_ok in Erun. eexists _, _.
      eapply (cpu_serial_kernel_assigns _ _ _ _ (enter self g)); [|exact Erun].
      apply draws_once_cast. }
  cbn [app] in Htr. rewrite Htr. split_and!.
  - by exists d, T.
  - change (stores_of (EvCall ?r :: ?l)) with (stores_of l).
    apply stores_of_sample_store.
  - change (samples_of (EvCall ?r :: ?l)) with (samples_of l).
    rewrite samples_of_sample_store, length_replicate.
    unfold irange, numel. rewrite length_seqZ. lia.
  - done.
Qed.

(** *** The kernels the other statements leave out *)

(** X11. The random kernel fills an output of any integral or floating
    type, bool, half and bfloat16 included, with the results of
    [uniform_int_distribution] instantiated at the element type, one call
    per element and no conversion after it; it rejects every other type
    before drawing anything. *)
Theorem random_kernel_fill iter g :
  (dtype iter ∈ kHalf :: kBFloat16 :: kBool :: ALL_TYPES →
     random_kernel iter (enter iter g) =
       serial_fill uniform_int (dtype iter) (λ _, uniform_int_distribution (dtype iter))
         id (numel iter) g) ∧
  (dtype iter ∉ kHalf :: kBFloat16 :: kBool :: ALL_TYPES →
     random_kernel iter (enter iter g) =
       (enter iter g, Throw (NotImplemented "random_kernel_cpu" (dtype iter)))).
Proof.
  unfold random_kernel, AT_DISPATCH_ALL_TYPES_AND3. split; intros Hty.
  - rewrite AT_DISPATCH_in by done. apply cpu_serial_kernel_enter_id.
  - by rewrite AT_DISPATCH_notin.
Qed.

(** X12. With one probability for all elements the Bernoulli kernel draws
    every sample from [bernoulli_distribution<double>(p)], whatever the
    element type of the output, and converts it to that type last; it
    dispatches on the integral and floating types, bool, half and bfloat16
    included, and rejects every other type before drawing anything. *)
Theorem bernoulli_kernel_scalar_fill self p g :
  (scalar_type self ∈ kBool :: kBFloat16 :: kHalf :: ALL_TYPES →
     bernoulli_kernel_scalar self p (enter self g) =
       serial_fill bernoulli kDouble (λ _, bernoulli_distribution kDouble p)
         (static_cast (scalar_type self)) (numel self) g) ∧
  (scalar_type self ∉ kBool :: kBFloat16 :: kHalf :: ALL_TYPES →
     bernoulli_kernel_scalar self p (enter self g) =
       (enter self g, Throw (NotImplemented "bernoulli_scalar_cpu_" (scalar_type self)))).
Proof.
  unfold bernoulli_kernel_scalar, AT_DISPATCH_ALL_TYPES_AND3. split; intros Hty.
  - rewrite AT_DISPATCH_in by done. apply cpu_serial_kernel_enter.
  - by rewrite AT_DISPATCH_notin.
Qed.

(** X13. With a tensor of probabilities the Bernoulli kernel checks the
    element type of the output first and that of the probabilities second:
    an output of a type it does not dispatch on is rejected under the name
    of the first dispatch whatever the probabilities are; with an accepted
    output, probabilities that are neither double, float, half nor bfloat16
    are rejected under the name of the second.  Either way nothing is drawn
    or assigned. *)
Theorem bernoulli_kernel_type_checks self p_ g :
  (scalar_type self ∉ kBool :: kBFloat16 :: kHalf :: ALL_TYPES →
     bernoulli_kernel self p_ (enter self g) =
       (enter self g,
        Throw (NotImplemented "bernoulli_tensor_cpu_self_" (scalar_type self)))) ∧
  (scalar_type self ∈ kBool :: kBFloat16 :: kHalf :: ALL_TYPES →
   scalar_type (expand_inplace (sizes self) p_) ∉ [kDouble; kFloat; kHalf; kBFloat16] →
     bernoulli_kernel self p_ (enter self g) =
       (enter self g,
        Throw (NotImplemented "bernoulli_tensor_cpu_p_"
                 (scalar_type (expand_inplace (sizes self) p_))))).
Proof.
  unfold bernoulli_kernel, AT_DISPATCH_ALL_TYPES_AND3. split.
  - intros Hty. by rewrite AT_DISPATCH_notin.
  - intros Hty Hp. rewrite AT_DISPATCH_in by done.
    rewrite bool_decide_false by (intros Hd; apply Hp; rewrite Hd; type_in_list).
    unfold AT_DISPATCH_FLOATING_TYPES_AND2. rewrite AT_DISPATCH_notin; [done|].
    intros Hin. apply Hp. revert Hin. clear.
    destruct (scalar_type _); intros Hin; type_in_list.
Qed.

(** X14. On an output that is not contiguous or has fewer than 16 elements
    the normal kernel draws every sample from
    [normal_distribution<double>(mean, std)], [mean] and [std] as given, and
    converts it to the element type last: one draw per element, where the
    bulk fill draws uniforms and converts [mean] and [std] first. *)
Theorem normal_kernel_per_element self mean std g :
  ¬ (16 ≤ numel self ∧ is_contiguous self = true) →
  scalar_type self ∈ [kDouble; kFloat; kHalf; kBFloat16] →
  normal_kernel self mean std (enter self g) =
    serial_fill normal kDouble (λ _, normal_distribution kDouble mean std)
      (static_cast (scalar_type self)) (numel self) g.
Proof. apply normal_kernel_serial_run. Qed.

(** X15. The exponential kernel never fails in its dispatch: every element
    type that passes its check is one the dispatch accepts, so the only
    type error it raises is the one of the check. *)
Theorem exponential_kernel_dispatch_total iter lambda g name t :
  (exponential_kernel iter lambda (enter iter g)).2 ≠ Throw (NotImplemented name t).
Proof.
  unfold exponential_kernel. destruct (isFloatingType (dtype iter)) eqn:Efl; [|done].
  cbn [TORCH_CHECK]. rewrite bind_ret.
  unfold AT_DISPATCH_FLOATING_TYPES_AND2. rewrite AT_DISPATCH_in.
  - intros He%throws_only_cpu_serial_kernel; [done|]. apply throws_only_cast.
  - revert Efl. clear. destruct (dtype iter); intros Efl; first [ done | type_in_list ].
Qed.

End MoreProperties.

(** ** The theorems at concrete inputs *)

Import Ref.


(** C2 at a long output, range 10 from -5. *)
Lemma random_from_to_kernel_bounds_witness :
  0 < 10 ∧
  ∃ vs g',
    random_from_to_kernel long2 10 (-5) (enter long2 words) =
      (mkState g' (static_cast_int64 kLong <$> vs)
         (EvCall r_cpu_serial_kernel
            :: sample_store uniform_int_from_to kLong (irange (numel long2))), Ok tt) ∧
    length vs = 2%nat ∧
    Forall (λ v, -5 ≤ v < -5 + 10) vs ∧
    (representable kLong (-5) → representable kLong (-5 + 10 - 1) →
       static_cast_int64 (F:=Z) kLong <$> vs = SInt <$> vs) ∧
    (10 = 1 → vs = replicate 2 (-5)).
Proof.
  split; [lia|].
  apply (random_from_to_kernel_bounds long2 10 (-5) words);
    [lia|lia|lia|type_in_list|lia].
Defined.

(** C3 at a long output. *)
Lemma exponential_kernel_rejects_non_floating_witness :
  isFloatingType (dtype long2) = false ∧
  exponential_kernel long2 3 (enter long2 words) =
    (mkState words (storage long2) [],
     Throw (CheckFailed
       "Exponential distribution is a continuous probability distribution. dtype must be a floating point but you specified ")).
Proof.
  split; [reflexivity|].
  apply (exponential_kernel_rejects_non_floating long2 3 words). reflexivity.
Defined.

(** C4: a long output of two elements fails the three conditions, and the
    normal kernel enters no routine for it. *)
Lemma normal_kernel_no_path_for_long :
  ¬ vectorizable long2 ∧
  normal_kernel long2 0 1 (enter long2 words) =
    (mkState words (storage long2) [], Throw (NotImplemented "normal_kernel_cpu" kLong)) ∧
  head (trace (normal_kernel long2 0 1 (enter long2 words)).1)
    ≠ Some (EvCall r_normal_fill) ∧
  head (trace (normal_kernel long2 0 1 (enter long2 words)).1)
    ≠ Some (EvCall r_cpu_serial_kernel).
Proof.
  split_and!; [|done..]. intros [Hfloat _]. discriminate Hfloat.
Qed.

(** C4 (amended) at a double output of 17 elements, which is not float. *)
Lemma normal_kernel_paths_witness :
  ¬ vectorizable double17 ∧
  head (trace (normal_kernel double17 0 1 (enter double17 words)).1)
    = Some (EvCall r_normal_fill).
Proof.
  assert (Hnot : ¬ vectorizable double17) by (intros [Hfloat _]; discriminate Hfloat).
  split; [exact Hnot|].
  apply (normal_kernel_paths double17 0 1 words); [type_in_list|exact Hnot].
Defined.

(** C5: on a half output with bounds 2049 and 2051 the uniform kernel rounds
    the bounds to 2048 and 2052 and draws in half precision; with a draw at
    three quarters of the interval it stores 2052.  The rescale in double
    precision of a draw into [2049, 2051), narrowed to half at the end, is
    2048 from the same generator and is 2052 from no generator. *)
Lemma uniform_kernel_not_double_precision :
  data (uniform_kernel half1 2049 2051 (enter half1 words)).1 = [SReal 2052] ∧
  samples_of (trace (uniform_kernel half1 2049 2051 (enter half1 words)).1)
    = [(uniform_real, kHalf)] ∧
  data (serial_fill uniform_real kDouble
          (λ _, uniform_real_distribution kDouble 2049 2051)
          (static_cast kHalf) (numel half1) words).1 = [SReal 2048] ∧
  (∀ g, data (serial_fill uniform_real kDouble
                (λ _, uniform_real_distribution kDouble 2049 2051)
                (static_cast kHalf) (numel half1) g).1 ≠ [SReal 2052]).
Proof.
  split_and!; [by vm_compute..|].
  intros g. unfold serial_fill. simpl. unfold linear_rescale. simpl.
  destruct (tape_random64 g) as [val g']. simpl.
  change (digits kDouble) with 53.
  pose proof (Z.mod_pos_bound val (2 ^ 53) ltac:(lia)) as Hval.
  assert (Hu : (val mod 2 ^ 53) * (2051 - 2049) / 2 ^ 53 = 0 ∨
               (val mod 2 ^ 53) * (2051 - 2049) / 2 ^ 53 = 1).
  { assert (0 ≤ (val mod 2 ^ 53) * (2051 - 2049) / 2 ^ 53 < 2); [|lia].
    split; [apply Z.div_pos; lia|apply Z.div_lt_upper_bound; lia]. }
  destruct Hu as [-> | ->]; by vm_compute.
Qed.

(** C5 (amended) at the same half output. *)
Lemma samplers_precision_witness :
  dtype half1 ∈ [kDouble; kFloat; kHalf; kBFloat16] ∧
  uniform_kernel half1 2049 2051 (enter half1 words) =
    serial_fill uniform_real kHalf
      (λ _, uniform_real_distribution kHalf (fround kHalf 2049) (fround kHalf 2051))
      (static_cast kHalf) (numel half1) words.
Proof.
  assert (Hty : dtype half1 ∈ [kDouble; kFloat; kHalf; kBFloat16]) by type_in_list.
  split; [exact Hty|].
  apply (samplers_precision half1 words); exact Hty.
Defined.

(** C6 at a long output, which is filled, and a half output, which is not. *)
Lemma random_full_64_bits_range_kernel_types_witness :
  (dtype long2 ∈ [kLong; kDouble; kFloat; kBFloat16] ∧
   (random_full_64_bits_range_kernel long2 (enter long2 words)).2 = Ok tt) ∧
  ((dtype half1 ∉ kBFloat16 :: ALL_TYPES) ∧
   random_full_64_bits_range_kernel half1 (enter half1 words) =
     (mkState words (storage half1) [],
      Throw (NotImplemented "random_full_64_bits_range_kernel_cpu" kHalf))).
Proof.
  assert (H1 : dtype long2 ∈ [kLong; kDouble; kFloat; kBFloat16]) by type_in_list.
  assert (H2 : dtype half1 ∉ kBFloat16 :: ALL_TYPES) by type_in_list.
  split; (split; [assumption|]).
  - by apply (random_full_64_bits_range_kernel_types long2 words).
  - by apply (random_full_64_bits_range_kernel_types half1 words).
Defined.



(** C8 at a double and at a float output of 17 elements: the last block
    starts at 1 and overlaps the complete block on elements 1 to 15. *)
Lemma bulk_normal_tail_recompute_witness :
  (16 ≤ numel double17 ∧ numel double17 mod 16 ≠ 0) ∧
  (∀ i, i ∈ stores_of (block_trace (bulk_vectorized kDouble) (17 - 16)) ∧
        i ∈ stores_of (complete_blocks (bulk_vectorized kDouble) 17) ↔
        17 - 16 ≤ i < 16 * (17 / 16)) ∧
  (∀ i, i ∈ stores_of (block_trace (bulk_vectorized kFloat) (17 - 16)) ∧
        i ∈ stores_of (complete_blocks (bulk_vectorized kFloat) 17) ↔
        17 - 16 ≤ i < 16 * (17 / 16)).
Proof.
  assert (Hsize : 16 ≤ numel double17) by (by vm_compute).
  assert (Hrem : numel double17 mod 16 ≠ 0) by (by vm_compute).
  split; [by split|]. split.
  - apply (bulk_normal_tail_recompute double17 0 1 words Hsize eq_refl);
      [type_in_list|exact Hrem].
  - apply (bulk_normal_tail_recompute float17 0 1 words Hsize eq_refl);
      [type_in_list|exact Hrem].
Defined.

(** C9 at a long output with half probabilities. *)
Lemma bernoulli_kernel_precision_witness :
  (scalar_type long2 ∈ kBool :: kBFloat16 :: kHalf :: ALL_TYPES ∧
   scalar_type (expand_inplace (sizes long2) half2) ∈ [kFloat; kHalf; kBFloat16]) ∧
  bernoulli_kernel long2 half2 (enter long2 words) =
    serial_fill bernoulli kFloat
      (λ i, bernoulli_distribution kFloat
              (fround kFloat
                 (as_real (storage (expand_inplace (sizes long2) half2) !!! Z.to_nat i))))
      (static_cast kLong) (numel long2) words.
Proof.
  assert (H1 : scalar_type long2 ∈ kBool :: kBFloat16 :: kHalf :: ALL_TYPES)
    by type_in_list.
  assert (H2 : scalar_type (expand_inplace (sizes long2) half2) ∈ [kFloat; kHalf; kBFloat16])
    by type_in_list.
  split; [by split|].
  apply (bernoulli_kernel_precision long2 half2 _ words eq_refl H1); [reflexivity|exact H2].
Defined.

(** C10 at a double output of 17 elements: 17 draws, one block, 16 draws,
    one block. *)
Lemma bulk_normal_draws_up_front_witness :
  16 ≤ numel double17 ∧
  normal_kernel double17 0 1 (enter double17 words) =
    (mkState (after_bulk_fill kDouble 17 words)
       (bulk_data (bulk_transform kDouble 0 1) kDouble kDouble 17 words)
       (EvCall r_normal_fill
          :: first_pass kDouble 17 ++ complete_blocks false 17
               ++ tail_block false kDouble 17), Ok tt).
Proof.
  assert (Hsize : 16 ≤ numel double17) by (by vm_compute).
  assert (Hty : scalar_type double17 ∈ [kDouble; kFloat; kHalf; kBFloat16]) by type_in_list.
  split; [exact Hsize|].
  exact (proj2 (proj1 (bulk_normal_draws_up_front double17 0 1 words Hsize eq_refl Hty))).
Defined.

(** ** More theorems at concrete inputs *)

Import Ref'.

(** X1 at the block at offset 1 of 17 doubles. *)
Lemma normal_fill_16_pairs_witness :
  0 ≤ 1 ∧ 1 + 16 ≤ Z.of_nat (length (data (enter ramp17 words))) ∧
  ∃ d',
    normal_fill_16 kDouble 1 0 1 (enter ramp17 words) =
      (mkState words d' (block_trace false 1), Ok tt) ∧
    length d' = 17%nat ∧
    (∀ i, (i < 1 ∨ 17 ≤ i)%nat → d' !! i = storage ramp17 !! i) ∧
    (∀ j a b, (j < 8)%nat →
       storage ramp17 !! (1 + j)%nat = Some a →
       storage ramp17 !! (1 + j + 8)%nat = Some b →
       d' !! (1 + j)%nat = Some (SReal (box_muller kDouble 0 1 (as_real a) (as_real b)).1) ∧
       d' !! (1 + j + 8)%nat
         = Some (SReal (box_muller kDouble 0 1 (as_real a) (as_real b)).2)).
Proof.
  assert (H0 : 0 ≤ 1) by lia.
  assert (H1 : 1 + 16 ≤ Z.of_nat (length (data (enter ramp17 words)))) by (vm_compute; discriminate).
  split; [exact H0|]. split; [exact H1|].
  exact (normal_fill_16_pairs kDouble 1 0 1 (enter ramp17 words) H0 H1).
Defined.

(** X2 at the first block of 17 floats, on the unit of 8 lanes. *)
Lemma normal_fill_16_vectorize_lanes_witness :
  Vec_size = 8 ∧ 0 ≤ 0 ∧ 0 + 16 ≤ Z.of_nat (length (data (enter float17' words))) ∧
  ∃ d',
    normal_fill_16_vectorize 0 (Vec_splat (fmul (fconst 2) fpi)) (Vec_splat (fconst 1))
      (Vec_splat (fconst (-2))) (Vec_splat 0) (Vec_splat 1) (enter float17' words) =
      (mkState words d' (block_trace true 0), Ok tt) ∧
    length d' = 17%nat ∧
    (∀ i, (i < 0 ∨ 16 ≤ i)%nat → d' !! i = storage float17' !! i) ∧
    (∀ j a b, (j < 8)%nat →
       storage float17' !! j = Some a →
       storage float17' !! (j + 8)%nat = Some b →
       d' !! j = Some (SReal (box_muller_lane 0 1 (as_real a) (as_real b)).1) ∧
       d' !! (j + 8)%nat = Some (SReal (box_muller_lane 0 1 (as_real a) (as_real b)).2)).
Proof.
  assert (Hv : Vec_size = 8) by reflexivity.
  assert (H0 : 0 ≤ 0) by lia.
  assert (H1 : 0 + 16 ≤ Z.of_nat (length (data (enter float17' words))))
    by (vm_compute; discriminate).
  split; [exact Hv|]. split; [exact H0|]. split; [exact H1|].
  exact (normal_fill_16_vectorize_lanes 0 0 1 (enter float17' words) Hv H0 H1).
Defined.

(** X3 at 17 doubles. *)
Lemma normal_kernel_bulk_values_witness :
  16 ≤ numel double17 ∧ is_contiguous double17 = true ∧
  normal_kernel double17 0 1 (enter double17 words) =
    (mkState (after_bulk_fill kDouble 17 words)
       (bulk_data (bulk_transform kDouble 0 1) kDouble kDouble 17 words)
       (bulk_trace r_normal_fill false kDouble 17), Ok tt).
Proof.
  assert (H0 : 16 ≤ numel double17) by (vm_compute; discriminate).
  split; [exact H0|]. split; [reflexivity|].
  apply (normal_kernel_bulk_values double17 0 1 words H0 eq_refl). type_in_list.
Defined.

(** X4 at the last of 17 floats, which only the tail block reaches. *)
Lemma normal_kernel_bulk_all_transformed_witness :
  (16 ≤ numel float17 ∧ 0 ≤ 16 < numel float17) ∧
  (∃ pre off post,
     trace (normal_kernel float17 7 1 (enter float17 words)).1
       = pre ++ block_trace (bulk_vectorized kFloat) off ++ post ∧
     16 ∈ stores_of (block_trace (bulk_vectorized kFloat) off) ∧
     16 ∉ stores_of post) ∧
  (∃ x a b,
     data (normal_kernel float17 7 1 (enter float17 words)).1 !! 16%nat = Some x ∧
     a ∈ bulk_uniforms kFloat 17 words ∧
     b ∈ bulk_uniforms kFloat 17 words ∧
     (x = SReal (bulk_pair kFloat 7 1 a b).1 ∨ x = SReal (bulk_pair kFloat 7 1 a b).2)).
Proof.
  assert (H0 : 16 ≤ numel float17) by (vm_compute; discriminate).
  assert (H1 : 0 ≤ 16 < numel float17) by (vm_compute; split; [discriminate|reflexivity]).
  assert (Hty : scalar_type float17 ∈ [kDouble; kFloat; kHalf; kBFloat16]) by type_in_list.
  split; [by split|].
  exact (normal_kernel_bulk_all_transformed float17 7 1 words 16 H0 eq_refl Hty H1).
Defined.

(** X5 at two halves. *)
Lemma normal_kernel_returns_witness :
  (normal_kernel half2 0 1 (enter half2 words)).2 = Ok tt.
Proof.
  apply (normal_kernel_returns half2 0 1 words). type_in_list.
Defined.

(** X6 at three doubles: the second pass starts 13 elements before the
    buffer. *)
Lemma bulk_fills_need_16_elements_witness :
  0 < numel double3 < 16 ∧
  (normal_fill kDouble double3 0 1 (enter double3 words)).2 = Throw (OutOfBounds (-13)) ∧
  (normal_fill_vectorize kDouble double3 0 1 (enter double3 words)).2
    = Throw (OutOfBounds (-13)).
Proof.
  assert (H0 : 0 < numel double3 < 16) by (vm_compute; split; reflexivity).
  split; [exact H0|].
  exact (proj1 (bulk_fills_need_16_elements kDouble double3 0 1 words) H0).
Defined.

(** X7 at 17 floats on a unit of four lanes. *)
Lemma vectorized_fill_falls_back_witness :
  Vec_size (VecUnit := four_lanes) ≠ 8 ∧ 16 ≤ numel float17 ∧
  ∃ g' d' tr,
    normal_fill_vectorize (VecUnit0 := four_lanes) kFloat float17 0 1 (enter float17 words)
      = (mkState g' d' (EvCall r_normal_fill_vectorize :: tr), Ok tt) ∧
    normal_fill kFloat float17 0 1 (enter float17 words)
      = (mkState g' d' (EvCall r_normal_fill :: tr), Ok tt).
Proof.
  assert (H0 : Vec_size (VecUnit := four_lanes) ≠ 8) by discriminate.
  assert (H1 : 16 ≤ numel float17) by (vm_compute; discriminate).
  split; [exact H0|]. split; [exact H1|].
  exact (vectorized_fill_falls_back (VecUnit0 := four_lanes) float17 0 1 words H0 H1).
Defined.

(** X8 at a normal fill of an output of type long. *)
Lemma type_errors_leave_state_witness :
  (run_call (call_normal 0 1) long2 (enter long2 words)).2
    = Throw (NotImplemented "normal_kernel_cpu" kLong) ∧
  type_error (NotImplemented "normal_kernel_cpu" kLong) ∧
  (run_call (call_normal 0 1) long2 (enter long2 words)).1 = enter long2 words.
Proof.
  assert (H0 : (run_call (call_normal 0 1) long2 (enter long2 words)).2
                 = Throw (NotImplemented "normal_kernel_cpu" kLong)) by reflexivity.
  split; [exact H0|]. split; [exact I|].
  exact (type_errors_leave_state (call_normal 0 1) long2 words _ H0 I).
Defined.

(** X9 at a uniform fill of an output of no element. *)
Lemma empty_output_draws_nothing_witness :
  numel float0 = 0 ∧
  ∃ tr, (run_call (call_uniform 0 1) float0 (enter float0 words)).1 = mkState words [] tr ∧
    samples_of tr = [] ∧ stores_of tr = [] ∧
    ((run_call (call_uniform 0 1) float0 (enter float0 words)).2 = Ok tt ∨
     ∃ e, (run_call (call_uniform 0 1) float0 (enter float0 words)).2 = Throw e
          ∧ type_error e).
Proof.
  split; [reflexivity|].
  apply (empty_output_draws_nothing (call_uniform 0 1) float0 words). reflexivity.
Defined.

(** X10 at a geometric fill of two longs. *)
Lemma per_element_fills_assign_once_witness :
  per_element (call_geometric 3) long2 ∧
  (run_call (call_geometric 3) long2 (enter long2 words)).2 = Ok tt ∧
  stores_of (trace (run_call (call_geometric 3) long2 (enter long2 words)).1) = [0; 1].
Proof.
  assert (H0 : (run_call (call_geometric 3) long2 (enter long2 words)).2 = Ok tt)
    by reflexivity.
  split; [exact I|]. split; [exact H0|].
  exact (proj1 (proj2 (per_element_fills_assign_once (call_geometric 3) long2 words I H0))).
Defined.

(** X11 at two longs, and at an output of a complex type. *)
Lemma random_kernel_fill_witness :
  random_kernel long2 (enter long2 words) =
    serial_fill uniform_int kLong (λ _, uniform_int_distribution kLong) id 2 words ∧
  random_kernel complex2 (enter complex2 words) =
    (enter complex2 words, Throw (NotImplemented "random_kernel_cpu" kComplexFloat)).
Proof.
  split.
  - apply (proj1 (random_kernel_fill long2 words)). type_in_list.
  - apply (proj2 (random_kernel_fill complex2 words)). type_in_list.
Defined.

(** X12 at two longs with probability 1. *)
Lemma bernoulli_kernel_scalar_fill_witness :
  bernoulli_kernel_scalar long2 1 (enter long2 words) =
    serial_fill bernoulli kDouble (λ _, bernoulli_distribution kDouble 1)
      (static_cast kLong) 2 words.
Proof.
  apply (proj1 (bernoulli_kernel_scalar_fill long2 1 words)). type_in_list.
Defined.

(** X13 at two longs with probabilities of type long. *)
Lemma bernoulli_kernel_type_checks_witness :
  bernoulli_kernel long2 long_p (enter long2 words) =
    (enter long2 words, Throw (NotImplemented "bernoulli_tensor_cpu_p_" kLong)).
Proof.
  assert (H0 : scalar_type long2 ∈ kBool :: kBFloat16 :: kHalf :: ALL_TYPES) by type_in_list.
  assert (H1 : scalar_type (expand_inplace (sizes long2) long_p)
                 ∉ [kDouble; kFloat; kHalf; kBFloat16]) by type_in_list.
  exact (proj2 (bernoulli_kernel_type_checks long2 long_p words) H0 H1).
Defined.

(** X14 at two halves. *)
Lemma normal_kernel_per_element_witness :
  ¬ (16 ≤ numel half2 ∧ is_contiguous half2 = true) ∧
  normal_kernel half2 0 1 (enter half2 words) =
    serial_fill normal kDouble (λ _, normal_distribution kDouble 0 1)
      (static_cast kHalf) 2 words.
Proof.
  assert (H0 : ¬ (16 ≤ numel half2 ∧ is_contiguous half2 = true))
    by (intros [Hsize _]; vm_compute in Hsize; apply Hsize; reflexivity).
  split; [exact H0|].
  apply (normal_kernel_per_element half2 0 1 words H0). type_in_list.
Defined.

(** X15 at one half. *)
Lemma exponential_kernel_dispatch_total_witness :
  (exponential_kernel half1 3 (enter half1 words)).2
    ≠ Throw (NotImplemented "exponential_cpu" kHalf).
Proof.
  apply (exponential_kernel_dispatch_total half1 3 words).
Defined.
